(** * Host side of the file-contract revision protocol

    A shallow embedding of [modules/host/negotiaterevisecontract.go]:
    the batch processor inside [managedRevisionIteration], the round
    itself, [verifyRevision] and the session loop
    [managedRPCReviseContract], followed by the properties of the
    design document that can be settled on them. *)

From Stdlib Require Import ZArith Lia Strings.Byte String.
From stdpp Require Import base tactics option list.

Local Open Scope Z_scope.

(** ** Machine integers

    [uint64] values are integers in [0, 2^64); the only operations of the
    source that can leave that range are one addition and one
    subtraction, written with [wrap64]. *)

Definition uint64 (x : Z) : Prop := 0 <= x < 2 ^ 64.

Definition wrap64 (x : Z) : Z := x mod 2 ^ 64.

(** [len l] is Go's [uint64(len(l))]. *)
Definition len {A} (l : list A) : Z := Z.of_nat (length l).

(** ** Currency

    Modelled from the spec: [types.Currency] is declared outside this
    file; it is an unbounded non-negative integer whose [Add] and [Mul]
    are exact, and [NewCurrency64] injects a [uint64]. *)

Definition Currency := Z.

Definition NewCurrency64 (x : Z) : Currency := x.

Definition Add (x y : Currency) : Currency := x + y.

Definition Mul (x y : Currency) : Currency := x * y.

(** ** Parameters of the build

    [modules.SectorSize], the hash type [crypto.Hash] and
    [crypto.MerkleRoot] are declared in other packages. *)

Class HostParams := {
  Hash : Type;
  SectorSize : Z;
  MerkleRoot : list byte -> Hash
}.

(** ** Errors *)

Inductive error : Type :=
| errBadModificationIndex
| errBadSectorSize
| errIllegalOffsetAndLength
| errLargeSector
| errUnknownModification
| errRenterOverreach        (* "renter cannot cover the whole transaction" *)
| ErrStopResponse           (* modules.ErrStopResponse *)
| errExternal (msg : string) (* an error of a collaborator *).

Definition error_eqb (a b : error) : bool :=
  match a, b with
  | errBadModificationIndex, errBadModificationIndex
  | errBadSectorSize, errBadSectorSize
  | errIllegalOffsetAndLength, errIllegalOffsetAndLength
  | errLargeSector, errLargeSector
  | errUnknownModification, errUnknownModification
  | errRenterOverreach, errRenterOverreach
  | ErrStopResponse, ErrStopResponse => true
  | errExternal s, errExternal t => String.eqb s t
  | _, _ => false
  end.

(** ** Revision actions

    Modelled from the spec: the type tag of [modules.RevisionAction] is a
    [types.Specifier]; [ActionDelete], [ActionInsert] and [ActionModify]
    are three distinct values of it and [ActionOther] stands for every
    other value a peer can send. *)

Inductive Specifier : Type :=
| ActionDelete
| ActionInsert
| ActionModify
| ActionOther (tag : Z).

Definition Specifier_eqb (a b : Specifier) : bool :=
  match a, b with
  | ActionDelete, ActionDelete
  | ActionInsert, ActionInsert
  | ActionModify, ActionModify => true
  | ActionOther s, ActionOther t => Z.eqb s t
  | _, _ => false
  end.

Record RevisionAction := {
  Type_ : Specifier;
  SectorIndex : Z;      (* uint64 *)
  Offset : Z;           (* uint64 *)
  Data : list byte
}.

(** ** Settings and host

    Modelled from the spec: of [modules.HostInternalSettings] a round
    reads the batch size limit and the three prices. *)

Record HostInternalSettings := {
  MaxReviseBatchSize : Z;
  MinimumUploadBandwidthPrice : Currency;
  MinimumStoragePrice : Currency;
  Collateral : Currency
}.

(** ** Outcomes and the state monad of a round

    A Go function that returns [error] either returns [nil], returns an
    error, or panics (an index or a slice bound out of range). State
    changes made before an error or a panic stay: [so] is a pointer. *)

Inductive Res (A : Type) : Type :=
| Ret (a : A)
| Err (e : error)
| Panic.
Arguments Ret {A} a.
Arguments Err {A} e.
Arguments Panic {A}.

Definition M (S A : Type) : Type := S -> Res A * S.

#[global] Instance M_ret {S} : MRet (M S) := fun A a s => (Ret a, s).

#[global] Instance M_bind {S} : MBind (M S) := fun A B f m s =>
  match m s with
  | (Ret a, s') => f a s'
  | (Err e, s') => (Err e, s')
  | (Panic, s') => (Panic, s')
  end.

Definition throw {S A} (e : error) : M S A := fun s => (Err e, s).

Definition get {S} : M S S := fun s => (Ret s, s).

Definition modify {S} (f : S -> S) : M S unit := fun s => (Ret tt, f s).

(** [err := f(); if err != nil { return err }]. *)
Definition check {S} (r : option error) : M S unit :=
  match r with
  | None => mret tt
  | Some e => throw e
  end.

(** [x, err := f(); if err != nil { return err }]. *)
Definition expect {S A} (r : error + A) : M S A :=
  match r with
  | inl e => throw e
  | inr a => mret a
  end.

(** [for _, x := range l { body }], where the body may return early. *)
Fixpoint forRange {S B} (body : B -> M S unit) (l : list B) : M S unit :=
  match l with
  | [] => mret tt
  | x :: l' => body x ;; forRange body l'
  end.

Section Model.
Context `{HostParams}.

(** The fields of [h] that one round reads: the snapshot taken under
    [h.mu.RLock] and the sector store behind [h.readSector]. *)
Record Host := {
  settings : HostInternalSettings;
  blockHeight : Z;      (* types.BlockHeight, a uint64 *)
  readSector : Hash -> error + list byte
}.

(** ** Storage obligation

    Modelled from the spec: the struct is declared in another file of
    the package; [proofDeadline] is a method there, a block height that
    no statement of a round changes, and [revisionNumber] is the number
    of the most recent revision the obligation holds. *)

Record storageObligation := {
  SectorRoots : list Hash;
  AnticipatedRevenue : Currency;
  ConfirmedRevenue : Currency;
  RiskedCollateral : Currency;
  proofDeadline : Z;    (* types.BlockHeight *)
  revisionNumber : Z    (* uint64 *)
}.

Definition set_SectorRoots (so : storageObligation) (roots : list Hash) :=
  {| SectorRoots := roots;
     AnticipatedRevenue := AnticipatedRevenue so;
     ConfirmedRevenue := ConfirmedRevenue so;
     RiskedCollateral := RiskedCollateral so;
     proofDeadline := proofDeadline so;
     revisionNumber := revisionNumber so |}.

(** The three assignments of lines 226-228. *)
Definition add_revenues (so : storageObligation)
    (storageRev bandwidthRev collateral : Currency) :=
  {| SectorRoots := SectorRoots so;
     AnticipatedRevenue := Add (AnticipatedRevenue so) storageRev;
     ConfirmedRevenue := Add (ConfirmedRevenue so) bandwidthRev;
     RiskedCollateral := Add (RiskedCollateral so) collateral;
     proofDeadline := proofDeadline so;
     revisionNumber := revisionNumber so |}.

(** ** The batch processor (lines 87-164) *)

(** The variables declared at lines 87-92, captured by the closure. *)
Record Accumulators := {
  bandwidthRevenue : Currency;
  storageRevenue : Currency;
  collateralRisked : Currency;
  sectorsRemoved : list Hash;
  sectorsGained : list Hash;
  gainedSectorData : list (list byte)
}.

Definition zeroAccumulators : Accumulators :=
  {| bandwidthRevenue := 0; storageRevenue := 0; collateralRisked := 0;
     sectorsRemoved := []; sectorsGained := []; gainedSectorData := [] |}.

(** What the closure reads and writes: [*so] and the captured locals. *)
Record BatchState := {
  so : storageObligation;
  acc : Accumulators
}.

(** Go's [copy(dst, src)]: overwrites the first [min(len dst, len src)]
    elements of [dst]. *)
Definition copy {A} (dst src : list A) : list A :=
  take (length dst) src ++ drop (length src) dst.

(** Lines 97-103. *)
Definition badIndex (m : RevisionAction) (roots : list Hash) : bool :=
  if Specifier_eqb (Type_ m) ActionInsert
  then SectorIndex m >? len roots
  else SectorIndex m >=? len roots.

(** Lines 113-114. *)
Definition doDelete (m : RevisionAction) : M BatchState unit := fun st =>
  let roots := SectorRoots (so st) in
  let i := Z.to_nat (SectorIndex m) in
  match roots !! i with
  | None => (Panic, st)
  | Some old =>
      (Ret tt,
       {| so := set_SectorRoots (so st) (take i roots ++ drop (S i) roots);
          acc := {| bandwidthRevenue := bandwidthRevenue (acc st);
                    storageRevenue := storageRevenue (acc st);
                    collateralRisked := collateralRisked (acc st);
                    sectorsRemoved := sectorsRemoved (acc st) ++ [old];
                    sectorsGained := sectorsGained (acc st);
                    gainedSectorData := gainedSectorData (acc st) |} |})
  end.

(** Lines 116-132. *)
Definition doInsert (h : Host) (m : RevisionAction) : M BatchState unit :=
  fun st =>
  if negb (len (Data m) =? SectorSize) then (Err errBadSectorSize, st)
  else
    let roots := SectorRoots (so st) in
    let i := Z.to_nat (SectorIndex m) in
    let blocksRemaining := wrap64 (proofDeadline (so st) - blockHeight h) in
    let blockBytesCurrency :=
      Mul (NewCurrency64 blocksRemaining) (NewCurrency64 SectorSize) in
    let newRoot := MerkleRoot (Data m) in
    (Ret tt,
     {| so := set_SectorRoots (so st) (take i roots ++ [newRoot] ++ drop i roots);
        acc := {| bandwidthRevenue :=
                    Add (bandwidthRevenue (acc st))
                        (Mul (MinimumUploadBandwidthPrice (settings h))
                             (NewCurrency64 SectorSize));
                  storageRevenue :=
                    Add (storageRevenue (acc st))
                        (Mul (MinimumStoragePrice (settings h)) blockBytesCurrency);
                  collateralRisked :=
                    Add (collateralRisked (acc st))
                        (Mul (Collateral (settings h)) blockBytesCurrency);
                  sectorsRemoved := sectorsRemoved (acc st);
                  sectorsGained := sectorsGained (acc st) ++ [newRoot];
                  gainedSectorData := gainedSectorData (acc st) ++ [Data m] |} |}).

(** Lines 138-158. [sector[Offset:]] panics when the offset is beyond
    the length of the slice the sector store returned. *)
Definition doModify (h : Host) (m : RevisionAction) : M BatchState unit :=
  fun st =>
  if (Offset m >? SectorSize)
     || (wrap64 (Offset m + len (Data m)) >? SectorSize)
  then (Err errIllegalOffsetAndLength, st)
  else
    let roots := SectorRoots (so st) in
    let i := Z.to_nat (SectorIndex m) in
    match roots !! i with
    | None => (Panic, st)
    | Some old =>
        match readSector h old with
        | inl e => (Err e, st)
        | inr sector =>
            if Offset m >? len sector then (Panic, st)
            else
              let o := Z.to_nat (Offset m) in
              let sector' := take o sector ++ copy (drop o sector) (Data m) in
              let newRoot := MerkleRoot sector' in
              (Ret tt,
               {| so := set_SectorRoots (so st) (<[i := newRoot]> roots);
                  acc := {| bandwidthRevenue :=
                              Add (bandwidthRevenue (acc st))
                                  (Mul (MinimumUploadBandwidthPrice (settings h))
                                       (NewCurrency64 SectorSize));
                            storageRevenue := storageRevenue (acc st);
                            collateralRisked := collateralRisked (acc st);
                            sectorsRemoved := sectorsRemoved (acc st) ++ [old];
                            sectorsGained := sectorsGained (acc st) ++ [newRoot];
                            gainedSectorData :=
                              gainedSectorData (acc st) ++ [sector'] |} |})
        end
    end.

(** The body of the loop at line 94. *)
Definition applyModification (h : Host) (m : RevisionAction)
    : M BatchState unit := fun st =>
  if badIndex m (SectorRoots (so st)) then (Err errBadModificationIndex, st)
  else if len (Data m) >? SectorSize then (Err errLargeSector, st)
  else match Type_ m with
       | ActionDelete => doDelete m st
       | ActionInsert => doInsert h m st
       | ActionModify => doModify h m st
       | ActionOther _ => (Err errUnknownModification, st)
       end.

(** The closure of lines 93-164. *)
Definition processModifications (h : Host) (modifications : list RevisionAction)
    : M BatchState unit :=
  forRange (applyModification h) modifications.

(** ** One round: [managedRevisionIteration] *)

(** Modelled from the spec: the volatile fields of
    [types.FileContractRevision], declared in package [types]. *)
Record FileContractRevision := {
  NewRevisionNumber : Z;
  NewFileSize : Z;
  NewFileMerkleRoot : Hash
}.

(** Modelled from the spec: of [types.TransactionSignature] the round
    reads [CoveredFields.WholeTransaction] and writes [Signature]. *)
Record TransactionSignature := {
  WholeTransaction : bool;
  Signature : list byte
}.

(** What a session makes observable outside itself: the exchange of
    [h.managedRPCRecentRevision] with the peer, the frames a round
    writes to [conn], the call of the obligation mutator, and what
    happens at the lock table: the lock taken, the lock released, a
    release that failed, and the entry in the log. *)
Inductive Event : Type :=
| ExchangedRecentRevision
| SentSettings
| WroteRejection (e : error)
| WroteAcceptance
| WroteSignature (sig : TransactionSignature)
| ModifyStorageObligation (o : storageObligation)
    (removed gained : list Hash) (data : list (list byte))
| Locked
| Unlocked
| UnlockFailed (e : error)
| LoggedCritical (e : error).

(** The answers one round gets from its collaborators, in the order the
    round asks for them: the host fields read under the lock, the
    objects the peer sends, and the results of the calls that leave this
    file. *)
Record Round := {
  host : Host;
  rpcSettings : option error;             (* h.managedRPCSettings *)
  negotiationAcceptance : option error;   (* modules.ReadNegotiationAcceptance *)
  sentModifications : error + list RevisionAction;
  sentRevision : error + FileContractRevision;
  firstAcceptance : option error;         (* modules.WriteNegotiationAcceptance *)
  sentRenterSig : error + TransactionSignature;
  signHash : error + list byte;           (* crypto.SignHash *)
  standaloneValid : option error;         (* txn.StandaloneValid *)
  obligationMutator : option error;       (* h.modifyStorageObligation *)
  secondAcceptance : option error;
  wroteHostSig : option error             (* encoding.WriteObject *)
}.

(** The obligation behind the pointer [so] and what went out so far. *)
Record World := {
  obligation : storageObligation;
  trace : list Event
}.

Definition emit (ev : Event) : M World unit := fun w =>
  (Ret tt, {| obligation := obligation w; trace := trace w ++ [ev] |}).

(** Modelled from the spec: [modules.WriteNegotiationRejection] writes a
    rejection frame that carries the reason and hands the reason back to
    its caller, which returns it. *)
Definition WriteNegotiationRejection {A} (e : error) : M World A :=
  emit (WroteRejection e) ;; throw e.

(** Modelled from the spec: [modules.WriteNegotiationAcceptance] writes
    the acceptance frame or fails with an I/O error. *)
Definition WriteNegotiationAcceptance (r : option error) : M World unit :=
  check r ;; emit WroteAcceptance.

(** Lines 281-296. *)
Definition verifyRevision (o : storageObligation) (revision : FileContractRevision)
    (storageRev bandwidthRev collateral : Currency) : option error :=
  None.

(** Lines 93-164 seen from the round: the closure runs on [*so] with
    fresh locals and its result is kept in [err]. *)
Definition runClosure (h : Host) (modifications : list RevisionAction)
    : M World (option error * Accumulators) := fun w =>
  match processModifications h modifications
          {| so := obligation w; acc := zeroAccumulators |} with
  | (Ret _, st) =>
      (Ret (None, acc st), {| obligation := so st; trace := trace w |})
  | (Err e, st) =>
      (Ret (Some e, acc st), {| obligation := so st; trace := trace w |})
  | (Panic, st) =>
      (Panic, {| obligation := so st; trace := trace w |})
  end.

(** Lines 226-241. *)
Definition commit (r : Round) (a : Accumulators) (encodedSig : list byte)
    : M World unit :=
  modify (fun w =>
    {| obligation := add_revenues (obligation w) (storageRevenue a)
                       (bandwidthRevenue a) (collateralRisked a);
       trace := trace w |}) ;;
  w ← get ;
  emit (ModifyStorageObligation (obligation w) (sectorsRemoved a)
          (sectorsGained a) (gainedSectorData a)) ;;
  match obligationMutator r with
  | Some e => WriteNegotiationRejection e
  | None =>
      WriteNegotiationAcceptance (secondAcceptance r) ;;
      check (wroteHostSig r) ;;
      emit (WroteSignature {| WholeTransaction := false; Signature := encodedSig |})
  end.

(** Lines 186-225. *)
Definition exchangeSignatures (r : Round) (a : Accumulators) : M World unit :=
  renterSig ← expect (sentRenterSig r) ;
  encodedSig ← expect (signHash r) ;
  match standaloneValid r with
  | Some e => WriteNegotiationRejection e
  | None =>
      if WholeTransaction renterSig then throw errRenterOverreach
      else commit r a encodedSig
  end.

(** Lines 48-241. *)
Definition managedRevisionIteration (r : Round) : M World unit :=
  check (rpcSettings r) ;; emit SentSettings ;;
  check (negotiationAcceptance r) ;;
  modifications ← expect (sentModifications r) ;
  res ← runClosure (host r) modifications ;
  match res with
  | (Some e, _) => WriteNegotiationRejection e
  | (None, a) =>
      revision ← expect (sentRevision r) ;
      w ← get ;
      match verifyRevision (obligation w) revision (storageRevenue a)
              (bandwidthRevenue a) (collateralRisked a) with
      | Some e => WriteNegotiationRejection e
      | None =>
          WriteNegotiationAcceptance (firstAcceptance r) ;;
          exchangeSignatures r a
      end
  end.

(** ** The session: [managedRPCReviseContract] *)

(** The answers a session gets: the obligation of the contract, the
    results of the lock table, and one [Round] for every time the loop
    condition [time.Now().Before(...)] holds. *)
Record Session := {
  recentRevision : error + storageObligation;  (* h.managedRPCRecentRevision *)
  lockResult : option error;                   (* h.lockStorageObligation *)
  unlockResult : option error;                 (* h.unlockStorageObligation *)
  rounds : list Round
}.

(** Lines 270-278. *)
Fixpoint revisionLoop (rs : list Round) : M World unit :=
  match rs with
  | [] => mret tt
  | r :: rs' => fun w =>
      match managedRevisionIteration r w with
      | (Ret _, w') => revisionLoop rs' w'
      | (Err e, w') =>
          if error_eqb e ErrStopResponse then (Ret tt, w') else (Err e, w')
      | (Panic, w') => (Panic, w')
      end
  end.

(** Modelled from the spec: [h.unlockStorageObligation] belongs to the
    lock table, which is declared in another file of the package. It
    releases the lock and returns [nil], or it returns an error, the
    failure to release the obligation lock that its caller logs as
    critical; then the lock stays held. *)
Definition unlockStorageObligation (result : option error) : Event :=
  match result with
  | None => Unlocked
  | Some e => UnlockFailed e
  end.

(** Lines 261-266: the deferred call, which runs when the function
    returns and when it panics. *)
Definition deferredUnlock (s : Session) : list Event :=
  unlockStorageObligation (unlockResult s) ::
  match unlockResult s with
  | Some e => [LoggedCritical e]
  | None => []
  end.

(** Lines 245-279. The result is what the caller gets and everything the
    session made observable; [None] where no obligation was obtained.
    The exchange of line 251 comes first, before the lock is asked
    for. *)
Definition managedRPCReviseContract (s : Session)
    : Res unit * option storageObligation * list Event :=
  match recentRevision s with
  | inl e => (Err e, None, [ExchangedRecentRevision])
  | inr o =>
      match lockResult s with
      | Some e => (Err e, Some o, [ExchangedRecentRevision])
      | None =>
          let '(res, w) :=
            revisionLoop (rounds s)
              {| obligation := o; trace := [ExchangedRecentRevision; Locked] |} in
          (res, Some (obligation w), trace w ++ deferredUnlock s)
      end
  end.

End Model.

(** ** Quantities the properties compare *)

Definition plus3 (a b : Z * Z * Z) : Z * Z * Z :=
  (a.1.1 + b.1.1, a.1.2 + b.1.2, a.2 + b.2).


Section Measures.
Context `{HostParams}.

(** The three totals of a batch: bandwidth revenue, storage revenue and
    risked collateral. *)
Definition totals (a : Accumulators) : Currency * Currency * Currency :=
  (bandwidthRevenue a, storageRevenue a, collateralRisked a).

(** The three counters of an obligation. *)
Definition counters (o : storageObligation) : Currency * Currency * Currency :=
  (AnticipatedRevenue o, ConfirmedRevenue o, RiskedCollateral o).

(** What lines 122-126 add to the totals for one Insert. *)
Definition insertDelta (h : Host) (deadline : Z) : Currency * Currency * Currency :=
  (MinimumUploadBandwidthPrice (settings h) * SectorSize,
   MinimumStoragePrice (settings h) * (wrap64 (deadline - blockHeight h) * SectorSize),
   Collateral (settings h) * (wrap64 (deadline - blockHeight h) * SectorSize)).

(** What line 150 adds to the totals for one Modify. *)
Definition modifyDelta (h : Host) : Currency * Currency * Currency :=
  (MinimumUploadBandwidthPrice (settings h) * SectorSize, 0, 0).

(** The events of the lock table, and the call of the obligation
    mutator. *)
Definition isLockEvent (ev : Event) : bool :=
  match ev with
  | Locked | Unlocked | UnlockFailed _ | LoggedCritical _ => true
  | _ => false
  end.

Definition isCommitCall (ev : Event) : bool :=
  match ev with
  | ModifyStorageObligation _ _ _ _ => true
  | _ => false
  end.


Definition isRejection (ev : Event) : bool :=
  match ev with
  | WroteRejection _ => true
  | _ => false
  end.

(** The state on which the closure of a round starts. *)
Definition closureStart (w : World) : BatchState :=
  {| so := obligation w; acc := zeroAccumulators |}.

End Measures.

(** ** Measures of batches and sessions *)

(** How many modifications of a batch carry the type [t]. *)
Definition countType (t : Specifier) (ms : list RevisionAction) : Z :=
  len (List.filter (fun m => Specifier_eqb (Type_ m) t) ms).

(** A call of [unlockStorageObligation], whatever it returned. *)
Definition isRelease `{HostParams} (ev : Event) : bool :=
  match ev with
  | Unlocked | UnlockFailed _ => true
  | _ => false
  end.

(** Whether the session holds the obligation lock after the events
    [tr]: it does from a [Locked] on, until an [Unlocked]. *)
Definition heldAfter `{HostParams} (tr : list Event) : bool :=
  fold_left (fun held ev =>
               match ev with
               | Locked => true
               | Unlocked => false
               | _ => held
               end) tr false.

(** The rounds [rs] run one after the other on [w], when each of them
    returns [nil]. *)
Fixpoint runRounds `{HostParams} (rs : list Round) (w : World) : option World :=
  match rs with
  | [] => Some w
  | r :: rs' =>
      match managedRevisionIteration r w with
      | (Ret _, w') => runRounds rs' w'
      | _ => None
      end
  end.

(** ** A small instance

    A build with four-byte sectors in which a sector is its own root, so
    that rounds can be run by computation. *)

Definition toyParams : HostParams :=
  {| Hash := list byte; SectorSize := 4; MerkleRoot := fun d => d |}.

Definition toySettings : HostInternalSettings :=
  {| MaxReviseBatchSize := 1000;
     MinimumUploadBandwidthPrice := 3;
     MinimumStoragePrice := 5;
     Collateral := 7 |}.

(** A store that holds every four-byte sector. *)
Definition toyStore (r : list byte) : error + list byte :=
  if (length r =? 4)%nat then inr r else inl (errExternal "no such sector").

Definition toyHost (height : Z) : @Host toyParams :=
  @Build_Host toyParams toySettings height toyStore.

Definition sectorA : list byte := [x0a; x0a; x0a; x0a].
Definition sectorB : list byte := [x0b; x0b; x0b; x0b].
Definition sectorC : list byte := [x0c; x0c; x0c; x0c].

Definition toyObligation (roots : list (list byte)) : @storageObligation toyParams :=
  @Build_storageObligation toyParams roots 100 200 300 50 3.

Definition toyState (roots : list (list byte)) : @BatchState toyParams :=
  @Build_BatchState toyParams (toyObligation roots) zeroAccumulators.

Definition action (t : Specifier) (i o : Z) (d : list byte) : RevisionAction :=
  {| Type_ := t; SectorIndex := i; Offset := o; Data := d |}.

Definition staleRevision : @FileContractRevision toyParams :=
  @Build_FileContractRevision toyParams 3 4 sectorA.

Definition narrowSig : TransactionSignature :=
  {| WholeTransaction := false; Signature := [x01] |}.

Definition wholeSig : TransactionSignature :=
  {| WholeTransaction := true; Signature := [x01] |}.

(** A round at block height 10 in which every collaborator succeeds,
    but for the obligation mutator, which answers [mutator]. *)
Definition toyRound (mods : list RevisionAction) (sig : TransactionSignature)
    (mutator : option error) : @Round toyParams :=
  @Build_Round toyParams (toyHost 10) None None (inr mods) (inr staleRevision)
    None (inr sig) (inr [x02]) None mutator None None.

Definition toyWorld (roots : list (list byte)) : @World toyParams :=
  @Build_World toyParams (toyObligation roots) [].

Definition toySession (rs : list (@Round toyParams)) : @Session toyParams :=
  @Build_Session toyParams (inr (toyObligation [sectorA])) None None rs.

(** Concrete batches and rounds on which the properties are run. *)

Definition insertC (i : Z) : RevisionAction := action ActionInsert i 0 sectorC.


Definition patch : RevisionAction := action ActionModify 0 1 [x0f; x0f].

Definition oversized : list byte := [x0f; x0f; x0f; x0f; x0f].

(** Deletes the first root, then names a sector that does not exist. *)
Definition failingBatch : list RevisionAction :=
  [action ActionDelete 0 0 []; action ActionDelete 5 0 []].

Definition failingRound : @Round toyParams :=
  toyRound failingBatch narrowSig None.

Definition failedCommitRound : @Round toyParams :=
  toyRound [insertC 0] narrowSig (Some (errExternal "disk full")).

Definition overreachRound : @Round toyParams :=
  toyRound [insertC 0] wholeSig None.

Definition goodRound : @Round toyParams :=
  toyRound [insertC 0] narrowSig None.

(** More concrete inputs: a store that answers with two-byte slices, a
    peer that hangs up or says stop, and what [goodRound] commits. *)

Definition deleteAt (i : Z) : RevisionAction := action ActionDelete i 0 [].

Definition shortHost : @Host toyParams :=
  @Build_Host toyParams toySettings 10 (fun _ => inr [x01; x01]).

Definition samePatch : RevisionAction := action ActionModify 0 1 [x0a; x0a].


Definition mixedBatch : list RevisionAction := [insertC 0; patch; deleteAt 1].

Definition hungUpRound : @Round toyParams :=
  @Build_Round toyParams (toyHost 10) None (Some (errExternal "connection closed"))
    (inr [insertC 0]) (inr staleRevision) None (inr narrowSig) (inr [x02])
    None None None None.

Definition stopRound : @Round toyParams :=
  @Build_Round toyParams (toyHost 10) None (Some ErrStopResponse)
    (inr [insertC 0]) (inr staleRevision) None (inr narrowSig) (inr [x02])
    None None None None.

Definition emptyRound : @Round toyParams := toyRound [] narrowSig None.

Definition committedObligation : @storageObligation toyParams :=
  @Build_storageObligation toyParams [sectorC; sectorA] 900 212 1420 50 3.

Definition goodCommit : @Event toyParams :=
  @ModifyStorageObligation toyParams committedObligation [] [sectorC] [sectorC].

Definition lockedWorld : @World toyParams :=
  @Build_World toyParams (toyObligation [sectorA])
    [@ExchangedRecentRevision toyParams; Locked].


(** ** Properties of one modification *)

Section StepProperties.
Context `{HostParams}.
Implicit Types (h : Host) (m : RevisionAction) (st : BatchState).

Lemma len_nonneg {A} (l : list A) : 0 <= len l.
Proof. unfold len. lia. Qed.

Lemma badIndex_insert m (roots : list Hash) :
  Type_ m = ActionInsert ->
  badIndex m roots = (SectorIndex m >? len roots).
Proof. intros Ht. unfold badIndex. now rewrite Ht. Qed.

Lemma badIndex_other m (roots : list Hash) :
  Type_ m <> ActionInsert ->
  badIndex m roots = (SectorIndex m >=? len roots).
Proof.
  intros Ht. unfold badIndex.
  destruct (Type_ m); simpl; congruence.
Qed.

(** An Insert that passes the index check and carries exactly one sector
    reaches line 121. *)
Lemma applyModification_insert h m st :
  Type_ m = ActionInsert ->
  SectorIndex m <= len (SectorRoots (so st)) ->
  len (Data m) = SectorSize ->
  applyModification h m st = doInsert h m st.
Proof.
  intros Ht Hi Hl. unfold applyModification.
  rewrite badIndex_insert by assumption.
  destruct (Z.gtb_spec (SectorIndex m) (len (SectorRoots (so st)))); [lia|].
  destruct (Z.gtb_spec (len (Data m)) SectorSize); [lia|].
  now rewrite Ht.
Qed.

Lemma doInsert_ok h m st :
  len (Data m) = SectorSize ->
  exists st', doInsert h m st = (Ret tt, st') /\
    SectorRoots (so st') =
      take (Z.to_nat (SectorIndex m)) (SectorRoots (so st))
      ++ [MerkleRoot (Data m)]
      ++ drop (Z.to_nat (SectorIndex m)) (SectorRoots (so st)) /\
    bandwidthRevenue (acc st') =
      bandwidthRevenue (acc st)
      + MinimumUploadBandwidthPrice (settings h) * SectorSize /\
    storageRevenue (acc st') =
      storageRevenue (acc st)
      + MinimumStoragePrice (settings h)
        * (wrap64 (proofDeadline (so st) - blockHeight h) * SectorSize) /\
    collateralRisked (acc st') =
      collateralRisked (acc st)
      + Collateral (settings h)
        * (wrap64 (proofDeadline (so st) - blockHeight h) * SectorSize) /\
    sectorsRemoved (acc st') = sectorsRemoved (acc st) /\
    sectorsGained (acc st') = sectorsGained (acc st) ++ [MerkleRoot (Data m)] /\
    gainedSectorData (acc st') = gainedSectorData (acc st) ++ [Data m].
Proof.
  intros Hl. unfold doInsert.
  rewrite (proj2 (Z.eqb_eq _ _) Hl). simpl.
  eexists. split; [reflexivity|]. simpl.
  unfold Add, Mul, NewCurrency64. repeat split.
Qed.

(** Go's [append(l[:i], append([]T{x}, l[i:]...)...)] as a list. *)
Lemma insert_at_spec {A} (l : list A) (i : nat) (x : A) :
  (i <= length l)%nat ->
  length (take i l ++ [x] ++ drop i l) = S (length l) /\
  (take i l ++ [x] ++ drop i l) !! i = Some x /\
  (forall j, (j < i)%nat -> (take i l ++ [x] ++ drop i l) !! j = l !! j) /\
  (forall j, (i <= j)%nat -> (take i l ++ [x] ++ drop i l) !! S j = l !! j).
Proof.
  intros Hi.
  assert (Ht : length (take i l) = i) by (apply length_take_le; lia).
  repeat split.
  - rewrite !length_app, Ht, length_drop. simpl. lia.
  - apply list_lookup_middle. now rewrite Ht.
  - intros j Hj. rewrite lookup_app_l by lia. now apply lookup_take_lt.
  - intros j Hj. rewrite lookup_app_r by lia. rewrite Ht.
    replace (S j - i)%nat with (S (j - i)) by lia. simpl.
    rewrite lookup_drop. f_equal. lia.
Qed.

(** C5. An Insert at index [i <= n] into a list of [n] roots whose
    payload is not larger than a sector: a payload that is not exactly
    one sector gives [errBadSectorSize]; otherwise the list grows to
    [n+1] roots, the root at [i] is the Merkle root of the payload, the
    roots before [i] stay, the roots from [i] on move up by one, and the
    root and the payload are appended to the gained sectors. *)
Theorem insert_places_root h m st :
  Type_ m = ActionInsert ->
  0 <= SectorIndex m <= len (SectorRoots (so st)) ->
  len (Data m) <= SectorSize ->
  (len (Data m) <> SectorSize ->
     applyModification h m st = (Err errBadSectorSize, st)) /\
  (len (Data m) = SectorSize ->
     exists st', applyModification h m st = (Ret tt, st') /\
       let i := Z.to_nat (SectorIndex m) in
       let roots := SectorRoots (so st) in
       let roots' := SectorRoots (so st') in
       length roots' = S (length roots) /\
       roots' !! i = Some (MerkleRoot (Data m)) /\
       (forall j, (j < i)%nat -> roots' !! j = roots !! j) /\
       (forall j, (i <= j)%nat -> roots' !! S j = roots !! j) /\
       sectorsGained (acc st') = sectorsGained (acc st) ++ [MerkleRoot (Data m)] /\
       gainedSectorData (acc st') = gainedSectorData (acc st) ++ [Data m]).
Proof.
  intros Ht Hi Hl. split.
  - intros Hne. unfold applyModification.
    rewrite badIndex_insert by assumption.
    destruct (Z.gtb_spec (SectorIndex m) (len (SectorRoots (so st)))); [lia|].
    destruct (Z.gtb_spec (len (Data m)) SectorSize); [lia|].
    rewrite Ht. unfold doInsert.
    destruct (Z.eqb_spec (len (Data m)) SectorSize); [contradiction|reflexivity].
  - intros Heq.
    rewrite applyModification_insert by (assumption || lia).
    destruct (doInsert_ok h m st Heq)
      as (st' & Hrun & Hroots & _ & _ & _ & _ & Hg & Hd).
    exists st'. split; [assumption|]. cbv zeta. rewrite Hroots.
    assert (Hn : (Z.to_nat (SectorIndex m) <= length (SectorRoots (so st)))%nat)
      by (unfold len in Hi; lia).
    destruct (insert_at_spec (SectorRoots (so st)) _ (MerkleRoot (Data m)) Hn)
      as (L1 & L2 & L3 & L4).
    repeat split; assumption.
Qed.

(** C6. A valid Insert at block height [h] with proof deadline [d],
    [h <= d]: the accumulators grow by exactly
    [uploadPrice * sectorSize], [storagePrice * ((d - h) * sectorSize)]
    and [collateral * ((d - h) * sectorSize)], as integers. *)
Theorem insert_accrues_exact h m st :
  Type_ m = ActionInsert ->
  0 <= SectorIndex m <= len (SectorRoots (so st)) ->
  len (Data m) = SectorSize ->
  uint64 (blockHeight h) ->
  uint64 (proofDeadline (so st)) ->
  blockHeight h <= proofDeadline (so st) ->
  exists st', applyModification h m st = (Ret tt, st') /\
    let blocksRemaining := proofDeadline (so st) - blockHeight h in
    bandwidthRevenue (acc st') =
      bandwidthRevenue (acc st)
      + MinimumUploadBandwidthPrice (settings h) * SectorSize /\
    storageRevenue (acc st') =
      storageRevenue (acc st)
      + MinimumStoragePrice (settings h) * (blocksRemaining * SectorSize) /\
    collateralRisked (acc st') =
      collateralRisked (acc st)
      + Collateral (settings h) * (blocksRemaining * SectorSize).
Proof.
  intros Ht Hi Hl Hh Hd Hle.
  rewrite applyModification_insert by (assumption || lia).
  destruct (doInsert_ok h m st Hl) as (st' & Hrun & _ & Hb & Hs & Hc & _).
  exists st'. split; [assumption|]. cbv zeta.
  assert (Hw : wrap64 (proofDeadline (so st) - blockHeight h)
               = proofDeadline (so st) - blockHeight h).
  { unfold wrap64, uint64 in *. apply Z.mod_small. lia. }
  rewrite Hw in Hs, Hc. auto.
Qed.

(** C10. An Insert processed when the block height is past the proof
    deadline is not refused: the unsigned subtraction wraps, so
    [blocksRemaining] is [d - h + 2^64], and storage revenue and risked
    collateral grow by the prices times that value times the sector
    size. *)
Theorem insert_past_deadline_wraps h m st :
  Type_ m = ActionInsert ->
  0 <= SectorIndex m <= len (SectorRoots (so st)) ->
  len (Data m) = SectorSize ->
  uint64 (blockHeight h) ->
  uint64 (proofDeadline (so st)) ->
  proofDeadline (so st) < blockHeight h ->
  exists st', applyModification h m st = (Ret tt, st') /\
    let blocksRemaining := proofDeadline (so st) - blockHeight h + 2 ^ 64 in
    wrap64 (proofDeadline (so st) - blockHeight h) = blocksRemaining /\
    storageRevenue (acc st') =
      storageRevenue (acc st)
      + MinimumStoragePrice (settings h) * (blocksRemaining * SectorSize) /\
    collateralRisked (acc st') =
      collateralRisked (acc st)
      + Collateral (settings h) * (blocksRemaining * SectorSize).
Proof.
  intros Ht Hi Hl Hh Hd Hlt.
  rewrite applyModification_insert by (assumption || lia).
  destruct (doInsert_ok h m st Hl) as (st' & Hrun & _ & _ & Hs & Hc & _).
  exists st'. split; [assumption|]. cbv zeta.
  assert (Hw : wrap64 (proofDeadline (so st) - blockHeight h)
               = proofDeadline (so st) - blockHeight h + 2 ^ 64).
  { unfold wrap64, uint64 in *.
    symmetry. apply (Z.mod_unique _ _ (-1)); lia. }
  rewrite Hw in Hs, Hc. auto.
Qed.

(** Go's [copy] when the source fits: [dst[:len(src)]] is replaced. *)
Lemma copy_fits {A} (dst src : list A) :
  (length src <= length dst)%nat ->
  copy dst src = src ++ drop (length src) dst.
Proof.
  intros Hl. unfold copy. now rewrite take_ge by lia.
Qed.

Lemma overlay_fits {A} (sector data : list A) (o : nat) :
  (o + length data <= length sector)%nat ->
  take o sector ++ copy (drop o sector) data
  = take o sector ++ data ++ drop (o + length data) sector.
Proof.
  intros Hl. rewrite copy_fits by (rewrite length_drop; lia).
  rewrite drop_drop. reflexivity.
Qed.

(** A modification that returns an error or panics leaves the roots and
    the accumulators as they were when it started. *)
Lemma applyModification_stops_clean h m st res st' :
  applyModification h m st = (res, st') ->
  res <> Ret tt ->
  st' = st.
Proof.
  unfold applyModification, doDelete, doInsert, doModify.
  intros Hrun Hres.
  repeat match type of Hrun with
         | (if ?c then _ else _) = _ => destruct c
         | match ?x with _ => _ end = _ => destruct x
         end;
    inversion Hrun; subst; try reflexivity; contradiction.
Qed.

Lemma processModifications_cons h m ms st :
  processModifications h (m :: ms) st =
  match applyModification h m st with
  | (Ret _, st') => processModifications h ms st'
  | (Err e, st') => (Err e, st')
  | (Panic, st') => (Panic, st')
  end.
Proof. reflexivity. Qed.

Lemma processModifications_app h pre post st :
  processModifications h (pre ++ post) st =
  match processModifications h pre st with
  | (Ret _, st') => processModifications h post st'
  | (Err e, st') => (Err e, st')
  | (Panic, st') => (Panic, st')
  end.
Proof.
  revert st. induction pre as [|m pre IH]; intros st.
  - reflexivity.
  - rewrite <- app_comm_cons, !processModifications_cons.
    destruct (applyModification h m st) as [[[]|e|] st1]; auto.
Qed.

(** The modification [m] that follows the prefix [pre] is judged on the
    state [pre] left, and its error is the error of the batch. *)
Lemma processModifications_fails_at h pre m post st st' e :
  processModifications h pre st = (Ret tt, st') ->
  applyModification h m st' = (Err e, st') ->
  processModifications h (pre ++ m :: post) st = (Err e, st').
Proof.
  intros Hpre Hm.
  rewrite processModifications_app, Hpre, processModifications_cons, Hm.
  reflexivity.
Qed.

(** A batch that fails fails at one of its modifications, after the
    ones before it were applied. *)
Lemma processModifications_failure_point h ms st e st' :
  processModifications h ms st = (Err e, st') ->
  exists pre m post,
    ms = pre ++ m :: post /\
    processModifications h pre st = (Ret tt, st') /\
    applyModification h m st' = (Err e, st').
Proof.
  revert st. induction ms as [|m ms IH]; intros st Hrun.
  - discriminate.
  - rewrite processModifications_cons in Hrun.
    destruct (applyModification h m st) as [[[]|e1|] st1] eqn:Hm.
    + destruct (IH _ Hrun) as (pre & m' & post & -> & Hpre & Hm').
      exists (m :: pre), m', post. split; [reflexivity|]. split; [|assumption].
      rewrite processModifications_cons, Hm. assumption.
    + inversion Hrun; subst.
      assert (st' = st) as -> by (eapply applyModification_stops_clean; eauto; discriminate).
      exists [], m, ms. repeat split; assumption.
    + discriminate.
Qed.

(** C4, as the code orders its checks. On the list left by the earlier
    modifications of the batch: an Insert whose index is above the
    length, or any other modification (Delete, Modify or of a type the
    host does not know) whose index is not below the length, gives
    [errBadModificationIndex]; a modification that passes the index check
    with a payload larger than a sector gives [errLargeSector]; a
    modification of unknown type that passes both checks gives
    [errUnknownModification]. *)
Theorem checks_in_order h pre m post st st' :
  processModifications h pre st = (Ret tt, st') ->
  let n := len (SectorRoots (so st')) in
  let batch := processModifications h (pre ++ m :: post) st in
  ((Type_ m = ActionInsert /\ SectorIndex m > n) \/
   (Type_ m <> ActionInsert /\ SectorIndex m >= n) ->
     batch = (Err errBadModificationIndex, st')) /\
  ((Type_ m = ActionInsert /\ SectorIndex m <= n) \/
   (Type_ m <> ActionInsert /\ SectorIndex m < n) ->
     (len (Data m) > SectorSize -> batch = (Err errLargeSector, st')) /\
     (len (Data m) <= SectorSize ->
      forall tag, Type_ m = ActionOther tag ->
        batch = (Err errUnknownModification, st'))).
Proof.
  intros Hpre n batch. subst n batch.
  split; [|intros Hok; split].
  - intros Hbad. apply processModifications_fails_at; [assumption|].
    unfold applyModification.
    destruct Hbad as [[Ht Hi]|[Ht Hi]].
    + rewrite badIndex_insert by assumption.
      destruct (Z.gtb_spec (SectorIndex m) (len (SectorRoots (so st')))); [reflexivity|lia].
    + rewrite badIndex_other by assumption.
      destruct (Z.geb_spec (SectorIndex m) (len (SectorRoots (so st')))); [reflexivity|lia].
  - intros Hl. apply processModifications_fails_at; [assumption|].
    unfold applyModification.
    destruct Hok as [[Ht Hi]|[Ht Hi]].
    + rewrite badIndex_insert by assumption.
      destruct (Z.gtb_spec (SectorIndex m) (len (SectorRoots (so st')))); [lia|].
      destruct (Z.gtb_spec (len (Data m)) SectorSize); [reflexivity|lia].
    + rewrite badIndex_other by assumption.
      destruct (Z.geb_spec (SectorIndex m) (len (SectorRoots (so st')))); [lia|].
      destruct (Z.gtb_spec (len (Data m)) SectorSize); [reflexivity|lia].
  - intros Hl tag Htag. apply processModifications_fails_at; [assumption|].
    unfold applyModification.
    destruct Hok as [[Ht Hi]|[Ht Hi]]; [congruence|].
    rewrite badIndex_other by assumption.
    destruct (Z.geb_spec (SectorIndex m) (len (SectorRoots (so st')))); [lia|].
    destruct (Z.gtb_spec (len (Data m)) SectorSize); [lia|].
    now rewrite Htag.
Qed.

(** A Modify that passes the index and the payload checks reaches
    line 138. *)
Lemma applyModification_modify h m st :
  Type_ m = ActionModify ->
  SectorIndex m < len (SectorRoots (so st)) ->
  len (Data m) <= SectorSize ->
  applyModification h m st = doModify h m st.
Proof.
  intros Ht Hi Hl. unfold applyModification.
  rewrite badIndex_other by congruence.
  destruct (Z.geb_spec (SectorIndex m) (len (SectorRoots (so st)))); [lia|].
  destruct (Z.gtb_spec (len (Data m)) SectorSize); [lia|].
  now rewrite Ht.
Qed.

Lemma lookup_valid_index {A} (l : list A) (i : Z) :
  0 <= i < len l -> exists x, l !! Z.to_nat i = Some x.
Proof.
  intros Hi. apply lookup_lt_is_Some. unfold len in Hi. lia.
Qed.

(** C7, with what the code needs for it. A Modify at a valid index with
    offset [o] and [l] bytes of data, [l] not above the sector size: if
    [o] or [o + l] is above the sector size the result is
    [errIllegalOffsetAndLength]; otherwise the store is asked for the
    sector of the current root at the index, a failure of the store is
    the result, and when the store returns a full sector, bytes
    [o..o+l] of it are replaced by the data, the root at the index
    becomes the Merkle root of the resulting sector, the length and all
    other roots stay, the old root is appended to the removed roots, the
    new root and the full new sector to the gained ones, and only
    bandwidth revenue grows, by [uploadPrice * sectorSize]. *)
Theorem modify_overlays_sector h m st :
  Type_ m = ActionModify ->
  0 <= SectorIndex m < len (SectorRoots (so st)) ->
  uint64 (Offset m) ->
  len (Data m) <= SectorSize ->
  SectorSize < 2 ^ 63 ->
  let i := Z.to_nat (SectorIndex m) in
  let o := Z.to_nat (Offset m) in
  let roots := SectorRoots (so st) in
  (Offset m > SectorSize \/ Offset m + len (Data m) > SectorSize ->
     applyModification h m st = (Err errIllegalOffsetAndLength, st)) /\
  (Offset m + len (Data m) <= SectorSize ->
     exists old, roots !! i = Some old /\
       (forall e, readSector h old = inl e ->
          applyModification h m st = (Err e, st)) /\
       (forall sector, readSector h old = inr sector ->
          len sector = SectorSize ->
          let sector' :=
            take o sector ++ Data m ++ drop (o + length (Data m)) sector in
          exists st', applyModification h m st = (Ret tt, st') /\
            SectorRoots (so st') = <[i := MerkleRoot sector']> roots /\
            length (SectorRoots (so st')) = length roots /\
            SectorRoots (so st') !! i = Some (MerkleRoot sector') /\
            (forall j, j <> i -> SectorRoots (so st') !! j = roots !! j) /\
            sectorsRemoved (acc st') = sectorsRemoved (acc st) ++ [old] /\
            sectorsGained (acc st') =
              sectorsGained (acc st) ++ [MerkleRoot sector'] /\
            gainedSectorData (acc st') = gainedSectorData (acc st) ++ [sector'] /\
            bandwidthRevenue (acc st') =
              bandwidthRevenue (acc st)
              + MinimumUploadBandwidthPrice (settings h) * SectorSize /\
            storageRevenue (acc st') = storageRevenue (acc st) /\
            collateralRisked (acc st') = collateralRisked (acc st))).
Proof.
  intros Ht Hi Ho Hl HS. cbv zeta.
  pose proof (len_nonneg (Data m)) as Hd0.
  rewrite applyModification_modify by (assumption || lia).
  unfold uint64 in Ho.
  assert (Hw : Offset m <= SectorSize ->
               wrap64 (Offset m + len (Data m)) = Offset m + len (Data m)).
  { intros Hle. unfold wrap64. apply Z.mod_small. lia. }
  split.
  - intros Hbad. unfold doModify.
    destruct (Z.gtb_spec (Offset m) SectorSize) as [Hgt|Hle]; [reflexivity|].
    rewrite (Hw Hle).
    destruct (Z.gtb_spec (Offset m + len (Data m)) SectorSize); [reflexivity|lia].
  - intros Hfit.
    destruct (lookup_valid_index (SectorRoots (so st)) (SectorIndex m) Hi)
      as [old Hold].
    exists old. split; [assumption|].
    assert (Hpass : (Offset m >? SectorSize)
                    || (wrap64 (Offset m + len (Data m)) >? SectorSize) = false).
    { rewrite Hw by lia.
      destruct (Z.gtb_spec (Offset m) SectorSize); [lia|].
      destruct (Z.gtb_spec (Offset m + len (Data m)) SectorSize); [lia|reflexivity]. }
    split.
    + intros e He. unfold doModify. rewrite Hpass. cbv zeta.
      rewrite Hold, He. reflexivity.
    + intros sector Hs Hlen.
      unfold doModify. rewrite Hpass. cbv zeta. rewrite Hold, Hs.
      destruct (Z.gtb_spec (Offset m) (len sector)); [lia|].
      rewrite overlay_fits by (unfold len in *; lia).
      eexists. split; [reflexivity|]. simpl.
      assert (Hin : (Z.to_nat (SectorIndex m) < length (SectorRoots (so st)))%nat)
        by (unfold len in Hi; lia).
      unfold Add, Mul, NewCurrency64.
      repeat split.
      * apply length_insert.
      * now apply list_lookup_insert_eq.
      * intros j Hj. now apply list_lookup_insert_ne.
Qed.

End StepProperties.

(** ** Properties of a batch *)

Section BatchProperties.
Context `{HostParams}.
Implicit Types (h : Host) (m : RevisionAction) (st : BatchState).

(** No modification touches the deadline or the counters of [so]. *)
Lemma applyModification_keeps_terms h m st res st' :
  applyModification h m st = (res, st') ->
  proofDeadline (so st') = proofDeadline (so st) /\
  revisionNumber (so st') = revisionNumber (so st) /\
  counters (so st') = counters (so st).
Proof.
  unfold applyModification, doDelete, doInsert, doModify.
  intros Hrun.
  repeat match type of Hrun with
         | (if ?c then _ else _) = _ => destruct c
         | match ?x with _ => _ end = _ => destruct x
         end;
    inversion Hrun; subst; auto.
Qed.

Lemma processModifications_keeps_terms h ms st res st' :
  processModifications h ms st = (res, st') ->
  proofDeadline (so st') = proofDeadline (so st) /\
  revisionNumber (so st') = revisionNumber (so st) /\
  counters (so st') = counters (so st).
Proof.
  revert st. induction ms as [|m ms IH]; intros st Hrun.
  - inversion Hrun; subst; auto.
  - rewrite processModifications_cons in Hrun.
    destruct (applyModification h m st) as [[[]|e|] st1] eqn:Hm;
      destruct (applyModification_keeps_terms _ _ _ _ _ Hm) as (E1 & E2 & E3).
    + destruct (IH _ Hrun) as (F1 & F2 & F3).
      rewrite F1, F2, F3. auto.
    + inversion Hrun; subst; auto.
    + inversion Hrun; subst; auto.
Qed.








End BatchProperties.

(** ** Properties of a round and of a session *)

Section RoundProperties.
Context `{HostParams}.

Ltac run_round :=
  unfold managedRevisionIteration, exchangeSignatures, commit,
    WriteNegotiationRejection, WriteNegotiationAcceptance, runClosure,
    verifyRevision, closureStart, check, expect, emit, throw, get, modify,
    mbind, M_bind, mret, M_ret; simpl.

Ltac split_round :=
  repeat match goal with
         | |- context [match ?x with _ => _ end] => is_var x; destruct x; simpl
         | |- context [if ?x then _ else _] => is_var x; destruct x; simpl
         | |- context [WholeTransaction ?x] =>
             is_var x; destruct x as [[|] ?]; simpl
         | |- context [processModifications ?h ?m ?s] =>
             destruct (processModifications h m s) as [[[]|?|] ?] eqn:?; simpl
         end.

Ltac solve_trace :=
  simpl; rewrite <- ?app_assoc; simpl;
  first [reflexivity | symmetry; apply app_nil_r].

(** Every way a round can end. The round only appends to the trace and
    never touches the lock table; either it does not call the obligation
    mutator and the counters are as before, or the whole batch was
    processed, the transaction was valid, the renter did not cover the
    whole transaction, and the mutator was called once, on the
    obligation with the batch totals added. *)
Lemma round_commit_or_not (r : Round) (w : World) res w' :
  managedRevisionIteration r w = (res, w') ->
  exists evs, trace w' = trace w ++ evs /\
    List.filter isLockEvent evs = [] /\
    ((List.filter isCommitCall evs = [] /\
      counters (obligation w') = counters (obligation w)) \/
     (exists mods st rev sig,
        sentModifications r = inr mods /\
        processModifications (host r) mods (closureStart w) = (Ret tt, st) /\
        sentRevision r = inr rev /\
        verifyRevision (so st) rev (storageRevenue (acc st))
          (bandwidthRevenue (acc st)) (collateralRisked (acc st)) = None /\
        standaloneValid r = None /\
        sentRenterSig r = inr sig /\ WholeTransaction sig = false /\
        obligation w' =
          add_revenues (so st) (storageRevenue (acc st))
            (bandwidthRevenue (acc st)) (collateralRisked (acc st)) /\
        List.filter isCommitCall evs =
          [ModifyStorageObligation (obligation w') (sectorsRemoved (acc st))
             (sectorsGained (acc st)) (gainedSectorData (acc st))])).
Proof.
  run_round. destruct r; simpl.
  split_round; intros Heq; inversion Heq; subst; clear Heq; simpl.
  all: eexists; split; [solve_trace|].
  all: split; [reflexivity|].
  all: try (left; split; [reflexivity|]).
  all: try reflexivity.
  all: try (match goal with
            | Hb : processModifications _ _ _ = _ |- _ =>
                apply (processModifications_keeps_terms _ _ _ _ _ Hb)
            end).
  all: right; do 4 eexists; repeat split; eauto.
Qed.

(** A round whose batch fails: the reason is written to the peer and
    returned, and [*so] is what the closure left. *)
Lemma round_batch_failure (r : Round) (w : World) mods e st :
  rpcSettings r = None ->
  negotiationAcceptance r = None ->
  sentModifications r = inr mods ->
  processModifications (host r) mods (closureStart w) = (Err e, st) ->
  managedRevisionIteration r w =
    (Err e, {| obligation := so st;
               trace := trace w ++ [SentSettings; WroteRejection e] |}).
Proof.
  intros Hs Ha Hm Hb. run_round. rewrite Hs, Ha, Hm. simpl.
  unfold closureStart in Hb. rewrite Hb. simpl.
  rewrite <- app_assoc. reflexivity.
Qed.

(** The signature exchange when the renter covers the whole
    transaction: the error is returned and nothing is written. *)
Lemma overreach_returns_silently (r : Round) (a : Accumulators) (w : World)
    sig enc :
  sentRenterSig r = inr sig ->
  signHash r = inr enc ->
  standaloneValid r = None ->
  WholeTransaction sig = true ->
  exchangeSignatures r a w = (Err errRenterOverreach, w).
Proof.
  intros Hs He Hv Hw. unfold exchangeSignatures, expect, throw, mbind, M_bind,
    mret, M_ret. rewrite Hs, He, Hv. simpl. rewrite Hw. reflexivity.
Qed.

(** The sibling path three lines above: a transaction that is not valid
    on its own is refused with a rejection frame. *)
Lemma invalid_transaction_rejected (r : Round) (a : Accumulators) (w : World)
    sig enc e :
  sentRenterSig r = inr sig ->
  signHash r = inr enc ->
  standaloneValid r = Some e ->
  exchangeSignatures r a w =
    (Err e, {| obligation := obligation w;
               trace := trace w ++ [WroteRejection e] |}).
Proof.
  intros Hs He Hv. unfold exchangeSignatures, WriteNegotiationRejection, emit,
    expect, throw, mbind, M_bind, mret, M_ret. rewrite Hs, He, Hv. reflexivity.
Qed.

(** What a round does to the obligation behind [so]. When the batch
    fails validation the round ends with that error, the three counters
    are what they were before the round, and [SectorRoots] is the list
    left by the modifications before the failing one, which are not
    undone. In every round that does not call the obligation mutator the
    counters are unchanged. The mutator is called only after the whole
    batch was processed, [verifyRevision] accepted and the transaction
    was valid, and it is called on the obligation with the batch totals
    already added to the counters, which is the obligation the round
    leaves. *)
Theorem round_mutation_frame (r : Round) (w : World) res w' :
  managedRevisionIteration r w = (res, w') ->
  (forall mods e st,
     rpcSettings r = None ->
     negotiationAcceptance r = None ->
     sentModifications r = inr mods ->
     processModifications (host r) mods (closureStart w) = (Err e, st) ->
     res = Err e /\
     counters (obligation w') = counters (obligation w) /\
     SectorRoots (obligation w') = SectorRoots (so st) /\
     exists pre m post,
       mods = pre ++ m :: post /\
       processModifications (host r) pre (closureStart w) = (Ret tt, st) /\
       applyModification (host r) m st = (Err e, st)) /\
  exists evs, trace w' = trace w ++ evs /\
    (List.filter isCommitCall evs = [] ->
       counters (obligation w') = counters (obligation w)) /\
    (forall o removed gained data,
       In (ModifyStorageObligation o removed gained data) evs ->
       exists mods st rev,
         sentModifications r = inr mods /\
         processModifications (host r) mods (closureStart w) = (Ret tt, st) /\
         sentRevision r = inr rev /\
         verifyRevision (so st) rev (storageRevenue (acc st))
           (bandwidthRevenue (acc st)) (collateralRisked (acc st)) = None /\
         standaloneValid r = None /\
         o = obligation w' /\
         o = add_revenues (so st) (storageRevenue (acc st))
               (bandwidthRevenue (acc st)) (collateralRisked (acc st)) /\
         removed = sectorsRemoved (acc st) /\
         gained = sectorsGained (acc st) /\
         data = gainedSectorData (acc st)).
Proof.
  intros Hrun. split.
  - intros mods e st Hs Ha Hm Hb.
    rewrite (round_batch_failure r w mods e st Hs Ha Hm Hb) in Hrun.
    inversion Hrun; subst; clear Hrun. simpl.
    destruct (processModifications_keeps_terms _ _ _ _ _ Hb) as (_ & _ & Hc).
    destruct (processModifications_failure_point _ _ _ _ _ Hb)
      as (pre & m & post & Hsplit & Hpre & Hfail).
    repeat split; [assumption|]. exists pre, m, post. auto.
  - destruct (round_commit_or_not r w res w' Hrun)
      as (evs & Htr & _ & [[Hnone Hc]|Hcommit]).
    + exists evs. split; [assumption|]. split; [auto|].
      intros o removed gained data Hin.
      assert (Hf : In (ModifyStorageObligation o removed gained data)
                      (List.filter isCommitCall evs))
        by (apply List.filter_In; split; [assumption|reflexivity]).
      rewrite Hnone in Hf. contradiction.
    + destruct Hcommit
        as (mods & st & rev & sig & Hm & Hb & Hr & Hv & Hsv & _ & _ & Ho & Hf).
      exists evs. split; [assumption|]. split.
      * intros Hnone. rewrite Hnone in Hf. discriminate.
      * intros o removed gained data Hin.
        assert (Hin' : In (ModifyStorageObligation o removed gained data)
                         (List.filter isCommitCall evs))
          by (apply List.filter_In; split; [assumption|reflexivity]).
        rewrite Hf in Hin'. destruct Hin' as [Heq|[]].
        inversion Heq; subst.
        exists mods, st, rev. repeat split; auto.
Qed.

(** The loop of a session appends to the trace and leaves the lock
    table alone. *)
Lemma revisionLoop_trace (rs : list Round) (w : World) res w' :
  revisionLoop rs w = (res, w') ->
  exists evs, trace w' = trace w ++ evs /\ List.filter isLockEvent evs = [].
Proof.
  revert w. induction rs as [|r rs IH]; intros w Hrun; simpl in Hrun.
  - inversion Hrun; subst. exists []. split; [now rewrite app_nil_r|reflexivity].
  - destruct (managedRevisionIteration r w) as [[[]|e|] w1] eqn:Hr;
      destruct (round_commit_or_not r w _ _ Hr) as (evs1 & Ht1 & Hl1 & _).
    + destruct (IH _ Hrun) as (evs2 & Ht2 & Hl2).
      exists (evs1 ++ evs2). split.
      * rewrite Ht2, Ht1. now rewrite app_assoc.
      * rewrite List.filter_app, Hl1, Hl2. reflexivity.
    + exists evs1. destruct (error_eqb e ErrStopResponse);
        inversion Hrun; subst; auto.
    + exists evs1. inversion Hrun; subst; auto.
Qed.


Lemma lock_events_release (evs : list Event) :
  List.filter isLockEvent evs = [] -> List.filter isRelease evs = [].
Proof.
  induction evs as [|ev evs IH]; [reflexivity|].
  destruct ev; simpl; intros Hf; try discriminate; auto.
Qed.

(** Events that are not of the lock table do not change who holds the
    lock. *)
Lemma heldAfter_app_free (tr evs : list Event) :
  List.filter isLockEvent evs = [] ->
  heldAfter (tr ++ evs) = heldAfter tr.
Proof.
  unfold heldAfter. rewrite fold_left_app.
  generalize (fold_left
                (fun (held : bool) (ev : Event) =>
                   match ev with
                   | Locked => true
                   | Unlocked => false
                   | _ => held
                   end) tr false).
  induction evs as [|ev evs IH]; intros held Hf; [reflexivity|].
  destruct ev; simpl in *; try discriminate; auto.
Qed.

Lemma heldAfter_snoc (tr : list Event) (ev : Event) :
  heldAfter (tr ++ [ev]) =
  match ev with
  | Locked => true
  | Unlocked => false
  | _ => heldAfter tr
  end.
Proof. unfold heldAfter. rewrite fold_left_app. reflexivity. Qed.


End RoundProperties.

(** ** The properties on concrete inputs *)

Ltac by_evaluation := unfold len, uint64; simpl; lia.

(** C5 on a list of two roots: inserting [sectorC] at index 1. *)
Lemma insert_places_root_witness :
  exists st',
    applyModification (toyHost 10) (insertC 1) (toyState [sectorA; sectorB])
      = (Ret tt, st') /\
    length (SectorRoots (so st')) = 3%nat /\
    SectorRoots (so st') !! 1%nat = Some sectorC /\
    SectorRoots (so st') !! 0%nat = Some sectorA /\
    SectorRoots (so st') !! 2%nat = Some sectorB.
Proof.
  destruct (@insert_places_root toyParams (toyHost 10) (insertC 1)
              (toyState [sectorA; sectorB]) eq_refl
              ltac:(by_evaluation) ltac:(by_evaluation)) as [_ Hok].
  destruct (Hok eq_refl) as (st' & Hrun & Hlen & Hat & Hbefore & Hafter & _).
  exists st'. split; [exact Hrun|]. split; [exact Hlen|]. split; [exact Hat|].
  split.
  - etransitivity; [apply (Hbefore 0%nat); simpl; lia|reflexivity].
  - etransitivity; [apply (Hafter 1%nat); simpl; lia|reflexivity].
Defined.

(** C6 at height 10 with deadline 50: forty blocks remain. *)
Lemma insert_accrues_exact_witness :
  exists st',
    applyModification (toyHost 10) (insertC 0) (toyState [sectorA])
      = (Ret tt, st') /\
    bandwidthRevenue (acc st') = 3 * 4 /\
    storageRevenue (acc st') = 5 * ((50 - 10) * 4) /\
    collateralRisked (acc st') = 7 * ((50 - 10) * 4).
Proof.
  destruct (@insert_accrues_exact toyParams (toyHost 10) (insertC 0)
              (toyState [sectorA]) eq_refl
              ltac:(by_evaluation) eq_refl ltac:(by_evaluation)
              ltac:(by_evaluation) ltac:(by_evaluation))
    as (st' & Hrun & Hb & Hs & Hc).
  exists st'. split; [exact Hrun|]. split; [exact Hb|]. split; [exact Hs|exact Hc].
Defined.

(** C10 at height 60 with deadline 50. *)
Lemma insert_past_deadline_wraps_witness :
  exists st',
    applyModification (toyHost 60) (insertC 0) (toyState [sectorA])
      = (Ret tt, st') /\
    storageRevenue (acc st') = 5 * ((50 - 60 + 2 ^ 64) * 4) /\
    collateralRisked (acc st') = 7 * ((50 - 60 + 2 ^ 64) * 4).
Proof.
  destruct (@insert_past_deadline_wraps toyParams (toyHost 60) (insertC 0)
              (toyState [sectorA]) eq_refl
              ltac:(by_evaluation) eq_refl ltac:(by_evaluation)
              ltac:(by_evaluation) ltac:(by_evaluation))
    as (st' & Hrun & _ & Hs & Hc).
  exists st'. split; [exact Hrun|]. split; [exact Hs|exact Hc].
Defined.

(** C7 on one stored sector: two bytes written at offset 1. *)
Lemma modify_overlays_sector_witness :
  exists st',
    applyModification (toyHost 10) patch (toyState [sectorA]) = (Ret tt, st') /\
    SectorRoots (so st') = [[x0a; x0f; x0f; x0a]] /\
    sectorsRemoved (acc st') = [sectorA] /\
    gainedSectorData (acc st') = [[x0a; x0f; x0f; x0a]] /\
    totals (acc st') = (3 * 4, 0, 0).
Proof.
  destruct (@modify_overlays_sector toyParams (toyHost 10) patch
              (toyState [sectorA]) eq_refl
              ltac:(by_evaluation) ltac:(by_evaluation) ltac:(by_evaluation)
              ltac:(by_evaluation)) as [_ Hok].
  destruct (Hok ltac:(by_evaluation)) as (old & Hold & _ & Hfull).
  injection Hold as <-.
  destruct (Hfull sectorA eq_refl eq_refl)
    as (st' & Hrun & Hroots & _ & _ & _ & Hrem & _ & Hdata & Hb & Hs & Hc).
  exists st'. split; [exact Hrun|]. split; [exact Hroots|].
  split; [exact Hrem|]. split; [exact Hdata|].
  unfold totals. rewrite Hb, Hs, Hc. reflexivity.
Defined.

(** C7 as stated fails: a Modify at a valid index whose five bytes at
    offset 0 run past the four-byte sector is refused with
    [errLargeSector], not [errIllegalOffsetAndLength]; and a Modify that
    fits, on a root the store does not hold, ends with the error of the
    store and changes nothing. *)
Lemma modify_as_stated_counterexample :
  let m := action ActionModify 0 0 oversized in
  let st := toyState [sectorA] in
  (0 <= SectorIndex m < len (SectorRoots (so st)) /\
   Offset m + len (Data m) > @SectorSize toyParams /\
   applyModification (toyHost 10) m st = (Err errLargeSector, st) /\
   (applyModification (toyHost 10) m st).1 <> Err errIllegalOffsetAndLength) /\
  let m2 := action ActionModify 0 0 [x0f] in
  let st2 := toyState [[x01]] in
  0 <= SectorIndex m2 < len (SectorRoots (so st2)) /\
  Offset m2 + len (Data m2) <= @SectorSize toyParams /\
  applyModification (toyHost 10) m2 st2
    = (Err (errExternal "no such sector"), st2).
Proof.
  cbv zeta. repeat split; try by_evaluation; try reflexivity.
  vm_compute. discriminate.
Qed.

(** C4 in a batch: after one Insert into an empty list, a modification
    of unknown type at index 0 with an empty payload. *)
Lemma checks_in_order_witness :
  (processModifications (toyHost 10) ([insertC 0] ++ [action (ActionOther 9) 0 0 []])
     (toyState [])).1 = Err errUnknownModification.
Proof.
  assert (Hpre : processModifications (toyHost 10) [insertC 0] (toyState [])
                 = (Ret tt, (processModifications (toyHost 10) [insertC 0]
                               (toyState [])).2))
    by (vm_compute; reflexivity).
  destruct (@checks_in_order toyParams _ _ (action (ActionOther 9) 0 0 []) []
              _ _ Hpre) as [_ Hok].
  assert (Hindex : Type_ (action (ActionOther 9) 0 0 []) <> ActionInsert /\
                   SectorIndex (action (ActionOther 9) 0 0 [])
                   < len (SectorRoots (so (processModifications (toyHost 10)
                                             [insertC 0] (toyState [])).2)))
    by (split; [discriminate|vm_compute; reflexivity]).
  destruct (Hok (or_intror Hindex)) as [_ Hunknown].
  assert (Hsize : len (Data (action (ActionOther 9) 0 0 [])) <= @SectorSize toyParams)
    by (vm_compute; discriminate).
  exact (f_equal fst (Hunknown Hsize 9 eq_refl)).
Defined.

(** C4 as stated fails: a modification of unknown type whose index is
    not below the length is refused with [errBadModificationIndex], not
    [errUnknownModification]; and so is a Delete with a bad index and a
    payload above the sector size, not with [errLargeSector]. *)
Lemma checks_as_stated_counterexample :
  let m := action (ActionOther 9) 0 0 [] in
  (Type_ m <> ActionInsert /\ Type_ m <> ActionDelete /\ Type_ m <> ActionModify /\
   processModifications (toyHost 10) [m] (toyState [])
     = (Err errBadModificationIndex, toyState []) /\
   (processModifications (toyHost 10) [m] (toyState [])).1
     <> Err errUnknownModification) /\
  let m2 := action ActionDelete 3 0 oversized in
  len (Data m2) > @SectorSize toyParams /\
  processModifications (toyHost 10) [m2] (toyState [sectorA])
    = (Err errBadModificationIndex, toyState [sectorA]) /\
  (processModifications (toyHost 10) [m2] (toyState [sectorA])).1
    <> Err errLargeSector.
Proof.
  cbv zeta. repeat split; try by_evaluation; try reflexivity; try discriminate.
  all: vm_compute; discriminate.
Qed.



(** A round whose batch fails at its second modification: the counters
    are kept, the first modification is not undone. *)
Lemma round_mutation_frame_witness :
  let out := managedRevisionIteration failingRound (toyWorld [sectorA; sectorB]) in
  out.1 = Err errBadModificationIndex /\
  counters (obligation out.2) = (100, 200, 300) /\
  SectorRoots (obligation out.2) = [sectorB].
Proof.
  cbv zeta.
  assert (Hrun : managedRevisionIteration failingRound (toyWorld [sectorA; sectorB])
                 = ((managedRevisionIteration failingRound
                       (toyWorld [sectorA; sectorB])).1,
                    (managedRevisionIteration failingRound
                       (toyWorld [sectorA; sectorB])).2))
    by (vm_compute; reflexivity).
  assert (Hbatch : processModifications (host failingRound) failingBatch
                     (closureStart (toyWorld [sectorA; sectorB]))
                   = (Err errBadModificationIndex,
                      (processModifications (host failingRound) failingBatch
                         (closureStart (toyWorld [sectorA; sectorB]))).2))
    by (vm_compute; reflexivity).
  destruct (@round_mutation_frame toyParams _ _ _ _ Hrun) as [Hfail _].
  destruct (Hfail failingBatch errBadModificationIndex _
              eq_refl eq_refl eq_refl Hbatch) as (Hres & Hc & Hroots & _).
  split; [exact Hres|]. split; [exact Hc|exact Hroots].
Defined.

(** C1 on the code. The batch [failingBatch] deletes the first of two
    roots and then fails validation: the closure has recorded the
    deleted root, the round ends with the error and without calling the
    obligation mutator, and the obligation behind [so] is left with one
    root, the deletion not reversed. And when the obligation mutator
    fails, the three counters have already been raised and stay
    raised. *)
Theorem failed_batch_is_not_reversed :
  (let w := toyWorld [sectorA; sectorB] in
   let batch := processModifications (host failingRound) failingBatch
                  (closureStart w) in
   let out := managedRevisionIteration failingRound w in
   batch.1 = Err errBadModificationIndex /\
   sectorsRemoved (acc batch.2) = [sectorA] /\
   out.1 = Err errBadModificationIndex /\
   List.filter isCommitCall (trace out.2) = [] /\
   SectorRoots (obligation w) = [sectorA; sectorB] /\
   SectorRoots (obligation out.2) = [sectorB] /\
   SectorRoots (obligation out.2) <> SectorRoots (obligation w)) /\
  (let w := toyWorld [sectorA] in
   let out := managedRevisionIteration failedCommitRound w in
   obligationMutator failedCommitRound = Some (errExternal "disk full") /\
   out.1 = Err (errExternal "disk full") /\
   counters (obligation w) = (100, 200, 300) /\
   counters (obligation out.2) = (900, 212, 1420) /\
   counters (obligation out.2) <> counters (obligation w) /\
   SectorRoots (obligation out.2) <> SectorRoots (obligation w)).
Proof.
  cbv zeta. repeat split; try reflexivity; vm_compute; discriminate.
Qed.



(** C2 on the code. [verifyRevision] accepts every proposal, so a
    proposal that repeats the revision number of the obligation is
    accepted and the round goes on to commit it. *)
Theorem stale_revision_number_accepted :
  NewRevisionNumber staleRevision <= revisionNumber (toyObligation [sectorA]) /\
  verifyRevision (toyObligation [sectorA]) staleRevision 0 0 0 = None /\
  (forall `{HostParams} o revision s b c, verifyRevision o revision s b c = None) /\
  let out := managedRevisionIteration goodRound (toyWorld [sectorA]) in
  sentRevision goodRound = inr staleRevision /\
  out.1 = Ret tt /\
  List.filter isRejection (trace out.2) = [] /\
  length (List.filter isCommitCall (trace out.2)) = 1%nat.
Proof.
  cbv zeta. repeat split; try reflexivity; try (vm_compute; discriminate).
Qed.

(** C3 on the code. When the renter's signature covers the whole
    transaction the round ends with that error and no rejection frame
    was written, while a transaction that is not valid on its own is
    answered with a rejection frame first. *)
Theorem overreach_sends_no_rejection :
  (let out := managedRevisionIteration overreachRound (toyWorld [sectorA]) in
   sentRenterSig overreachRound = inr wholeSig /\
   WholeTransaction wholeSig = true /\
   out.1 = Err errRenterOverreach /\
   trace out.2 = [SentSettings; WroteAcceptance] /\
   List.filter isRejection (trace out.2) = []) /\
  (forall `{HostParams} (r : Round) a w sig enc,
     sentRenterSig r = inr sig -> signHash r = inr enc ->
     standaloneValid r = None -> WholeTransaction sig = true ->
     exchangeSignatures r a w = (Err errRenterOverreach, w)) /\
  (forall `{HostParams} (r : Round) a w sig enc e,
     sentRenterSig r = inr sig -> signHash r = inr enc ->
     standaloneValid r = Some e ->
     exchangeSignatures r a w =
       (Err e, {| obligation := obligation w;
                  trace := trace w ++ [WroteRejection e] |})).
Proof.
  split; [cbv zeta; repeat split; reflexivity|]. split.
  - intros P r a w sig enc. apply overreach_returns_silently.
  - intros P r a w sig enc e. apply invalid_transaction_rejected.
Qed.

(** ** Further properties of one modification *)

Section MoreStepProperties.
Context `{HostParams}.
Implicit Types (h : Host) (m : RevisionAction) (st : BatchState).

(** Go's [copy] never changes the length of its destination. *)
Lemma length_copy {A} (dst src : list A) : length (copy dst src) = length dst.
Proof.
  unfold copy. rewrite length_app, length_take, length_drop. lia.
Qed.

Lemma length_overlay {A} (sector data : list A) (o : nat) :
  (o <= length sector)%nat ->
  length (take o sector ++ copy (drop o sector) data) = length sector.
Proof.
  intros Ho. rewrite length_app, length_copy, length_take, length_drop. lia.
Qed.

(** Outside the written range the overlay reads as the old sector. *)
Lemma lookup_overlay_outside {A} (sector data : list A) (o j : nat) :
  (o <= length sector)%nat ->
  (j < o \/ o + length data <= j)%nat ->
  (take o sector ++ copy (drop o sector) data) !! j = sector !! j.
Proof.
  intros Ho Hj.
  assert (Ht : length (take o sector) = o) by (apply length_take_le; lia).
  destruct (decide (j < o)%nat) as [Hlt|Hge].
  - rewrite lookup_app_l by lia. now apply lookup_take_lt.
  - rewrite lookup_app_r by lia. rewrite Ht. unfold copy.
    rewrite lookup_app_r by (rewrite length_take, length_drop; lia).
    rewrite length_take, !length_drop, lookup_drop.
    destruct (decide (length data <= length sector - o)%nat).
    + rewrite lookup_drop. f_equal. lia.
    + rewrite !lookup_ge_None_2; [reflexivity|lia|rewrite length_drop; lia].
Qed.

(** Inside the written range it reads as the data, as far as the old
    sector reaches. *)
Lemma lookup_overlay_inside {A} (sector data : list A) (o j : nat) :
  (o <= j < o + length data)%nat ->
  (j < length sector)%nat ->
  (take o sector ++ copy (drop o sector) data) !! j = data !! (j - o)%nat.
Proof.
  intros Hj Hs.
  assert (Ht : length (take o sector) = o) by (apply length_take_le; lia).
  rewrite lookup_app_r by lia. rewrite Ht. unfold copy.
  rewrite lookup_app_l by (rewrite length_take, length_drop; lia).
  apply lookup_take_lt. rewrite length_drop. lia.
Qed.

(** Go's [append(l[:i], l[i+1:]...)] as a list. *)
Lemma delete_at_spec {A} (l : list A) (i : nat) :
  (i < length l)%nat ->
  S (length (take i l ++ drop (S i) l)) = length l /\
  (forall j, (j < i)%nat -> (take i l ++ drop (S i) l) !! j = l !! j) /\
  (forall j, (i <= j)%nat -> (take i l ++ drop (S i) l) !! j = l !! S j).
Proof.
  intros Hi. rewrite <- delete_take_drop. repeat split.
  - rewrite length_delete by (now apply lookup_lt_is_Some). lia.
  - intros j Hj. now apply list_lookup_delete_lt.
  - intros j Hj. now apply list_lookup_delete_ge.
Qed.

Lemma delete_removes_root_aux h m st :
  Type_ m = ActionDelete ->
  0 <= SectorIndex m < len (SectorRoots (so st)) ->
  len (Data m) <= SectorSize ->
  exists old st',
    SectorRoots (so st) !! Z.to_nat (SectorIndex m) = Some old /\
    applyModification h m st = (Ret tt, st') /\
    SectorRoots (so st') =
      take (Z.to_nat (SectorIndex m)) (SectorRoots (so st))
      ++ drop (S (Z.to_nat (SectorIndex m))) (SectorRoots (so st)) /\
    sectorsRemoved (acc st') = sectorsRemoved (acc st) ++ [old] /\
    sectorsGained (acc st') = sectorsGained (acc st) /\
    totals (acc st') = totals (acc st).
Proof.
  intros Ht Hi Hl.
  destruct (lookup_valid_index _ _ Hi) as [old Hold].
  exists old. eexists. split; [exact Hold|]. split.
  - unfold applyModification. rewrite badIndex_other by congruence.
    destruct (Z.geb_spec (SectorIndex m) (len (SectorRoots (so st)))); [lia|].
    destruct (Z.gtb_spec (len (Data m)) SectorSize); [lia|].
    rewrite Ht. unfold doDelete. rewrite Hold. reflexivity.
  - simpl. repeat split.
Qed.

(** A Delete at a valid index (lines 110-114): the list loses the root at
    the index, the roots before it stay and the ones after it move down
    by one; the lost root is appended to the removed roots, and neither
    the gained sectors nor the three totals change. The payload of a
    Delete is still subject to the size check of line 105. *)
Theorem delete_removes_root h m st :
  Type_ m = ActionDelete ->
  0 <= SectorIndex m < len (SectorRoots (so st)) ->
  len (Data m) <= SectorSize ->
  exists old st',
    SectorRoots (so st) !! Z.to_nat (SectorIndex m) = Some old /\
    applyModification h m st = (Ret tt, st') /\
    S (length (SectorRoots (so st'))) = length (SectorRoots (so st)) /\
    (forall j, (j < Z.to_nat (SectorIndex m))%nat ->
       SectorRoots (so st') !! j = SectorRoots (so st) !! j) /\
    (forall j, (Z.to_nat (SectorIndex m) <= j)%nat ->
       SectorRoots (so st') !! j = SectorRoots (so st) !! S j) /\
    sectorsRemoved (acc st') = sectorsRemoved (acc st) ++ [old] /\
    sectorsGained (acc st') = sectorsGained (acc st) /\
    gainedSectorData (acc st') = gainedSectorData (acc st) /\
    totals (acc st') = totals (acc st).
Proof.
  intros Ht Hi Hl.
  destruct (lookup_valid_index _ _ Hi) as [old Hold].
  assert (Hn : (Z.to_nat (SectorIndex m) < length (SectorRoots (so st)))%nat)
    by (unfold len in Hi; lia).
  destruct (delete_at_spec (SectorRoots (so st)) _ Hn) as (L1 & L2 & L3).
  exists old. eexists. split; [exact Hold|]. split.
  - unfold applyModification. rewrite badIndex_other by congruence.
    destruct (Z.geb_spec (SectorIndex m) (len (SectorRoots (so st)))); [lia|].
    destruct (Z.gtb_spec (len (Data m)) SectorSize); [lia|].
    rewrite Ht. unfold doDelete. rewrite Hold. reflexivity.
  - simpl. repeat split; assumption.
Qed.

(** The only panic of the batch processor. With a [uint64] index, a
    modification panics exactly when it is a Modify that passes every
    check and the sector store answers with a slice shorter than the
    offset, so that [sector[Offset:]] is out of range. *)
Theorem panics_only_on_short_sector h m st :
  0 <= SectorIndex m ->
  (applyModification h m st).1 = Panic <->
  (Type_ m = ActionModify /\
   SectorIndex m < len (SectorRoots (so st)) /\
   len (Data m) <= SectorSize /\
   Offset m <= SectorSize /\
   wrap64 (Offset m + len (Data m)) <= SectorSize /\
   exists old sector,
     SectorRoots (so st) !! Z.to_nat (SectorIndex m) = Some old /\
     readSector h old = inr sector /\
     len sector < Offset m).
Proof.
  intros Hi0. unfold applyModification, badIndex.
  destruct (Type_ m) eqn:Ht; simpl.
  - (* Delete *)
    destruct (Z.geb_spec (SectorIndex m) (len (SectorRoots (so st)))) as [Hge|Hlt];
      [split; [discriminate|intros (? & _); discriminate]|].
    destruct (Z.gtb_spec (len (Data m)) SectorSize);
      [split; [discriminate|intros (? & _); discriminate]|].
    unfold doDelete.
    destruct (lookup_valid_index (SectorRoots (so st)) (SectorIndex m)
                (conj Hi0 Hlt)) as [old ->].
    split; [discriminate|intros (? & _); discriminate].
  - (* Insert *)
    destruct (SectorIndex m >? len (SectorRoots (so st)));
      [split; [discriminate|intros (? & _); discriminate]|].
    destruct (len (Data m) >? SectorSize);
      [split; [discriminate|intros (? & _); discriminate]|].
    unfold doInsert. destruct (negb (len (Data m) =? SectorSize));
      (split; [discriminate|intros (? & _); discriminate]).
  - (* Modify *)
    destruct (Z.geb_spec (SectorIndex m) (len (SectorRoots (so st)))) as [Hge|Hlt];
      [split; [discriminate|intros (_ & ? & _); lia]|].
    destruct (Z.gtb_spec (len (Data m)) SectorSize) as [Hbig|Hfits];
      [split; [discriminate|intros (_ & _ & ? & _); lia]|].
    unfold doModify.
    destruct (Z.gtb_spec (Offset m) SectorSize) as [Ho|Ho]; simpl;
      [split; [discriminate|intros (_ & _ & _ & ? & _); lia]|].
    destruct (Z.gtb_spec (wrap64 (Offset m + len (Data m))) SectorSize) as [Hw|Hw];
      [split; [discriminate|intros (_ & _ & _ & _ & ? & _); lia]|].
    destruct (lookup_valid_index (SectorRoots (so st)) (SectorIndex m)
                (conj Hi0 Hlt)) as [old Hold].
    rewrite Hold.
    destruct (readSector h old) as [e|sector] eqn:Hread.
    + split; [discriminate|].
      intros (_ & _ & _ & _ & _ & old' & sector & Hold' & Hread' & _).
      congruence.
    + destruct (Z.gtb_spec (Offset m) (len sector)) as [Hshort|Hlong]; simpl.
      * split; [|reflexivity]. intros _.
        repeat split; try assumption. exists old, sector. auto.
      * split; [discriminate|].
        intros (_ & _ & _ & _ & _ & old' & sector' & Hold' & Hread' & Hlen).
        assert (old' = old) by congruence. subst old'.
        assert (sector' = sector) by congruence. subst sector'. lia.
  - (* unknown type *)
    destruct (SectorIndex m >=? len (SectorRoots (so st)));
      [split; [discriminate|intros (? & _); discriminate]|].
    destruct (len (Data m) >? SectorSize);
      split; try discriminate; intros (? & _); discriminate.
Qed.

(** What a Modify that succeeds wrote (lines 143-158), whatever the
    length of the slice the store returned: the gained sector has the
    length of the fetched one, equals it outside the bytes
    [o .. o+len(data)), and inside that range carries the data as far
    as the fetched sector reaches; data beyond its end is dropped
    without an error. The root at the index is the Merkle root of that
    sector. *)
Theorem modify_writes_only_range h m st st' :
  Type_ m = ActionModify ->
  0 <= SectorIndex m ->
  0 <= Offset m ->
  applyModification h m st = (Ret tt, st') ->
  exists old sector sector',
    SectorRoots (so st) !! Z.to_nat (SectorIndex m) = Some old /\
    readSector h old = inr sector /\
    gainedSectorData (acc st') = gainedSectorData (acc st) ++ [sector'] /\
    SectorRoots (so st') =
      <[Z.to_nat (SectorIndex m) := MerkleRoot sector']> (SectorRoots (so st)) /\
    length sector' = length sector /\
    (forall j, (j < Z.to_nat (Offset m) \/
                Z.to_nat (Offset m) + length (Data m) <= j)%nat ->
       sector' !! j = sector !! j) /\
    (forall j, (Z.to_nat (Offset m) <= j
                < Z.to_nat (Offset m) + length (Data m))%nat ->
       (j < length sector)%nat ->
       sector' !! j = Data m !! (j - Z.to_nat (Offset m))%nat).
Proof.
  intros Ht Hi0 Ho0. unfold applyModification. rewrite Ht.
  destruct (badIndex m (SectorRoots (so st))); [discriminate|].
  destruct (len (Data m) >? SectorSize); [discriminate|].
  unfold doModify.
  destruct ((Offset m >? SectorSize)
            || (wrap64 (Offset m + len (Data m)) >? SectorSize));
    [discriminate|].
  cbv zeta.
  destruct (SectorRoots (so st) !! Z.to_nat (SectorIndex m)) as [old|] eqn:Hold;
    [|discriminate].
  destruct (readSector h old) as [e|sector] eqn:Hread; [discriminate|].
  destruct (Z.gtb_spec (Offset m) (len sector)) as [Hshort|Hlong];
    [discriminate|].
  intros Hrun. inversion Hrun; subst; clear Hrun. simpl.
  assert (Hon : (Z.to_nat (Offset m) <= length sector)%nat)
    by (unfold len in Hlong; lia).
  exists old, sector. eexists.
  split; [reflexivity|]. split; [exact Hread|].
  split; [reflexivity|]. split; [reflexivity|]. repeat split.
  - now apply length_overlay.
  - intros j Hj. now apply lookup_overlay_outside.
  - intros j Hj Hs. now apply lookup_overlay_inside.
Qed.

(** An Insert followed by a Delete at the same index: the list of roots
    is the one before the two, but the Insert is charged in full and its
    root is recorded both as gained and as removed. *)
Theorem insert_then_delete_restores_roots h m1 m2 st :
  Type_ m1 = ActionInsert ->
  Type_ m2 = ActionDelete ->
  SectorIndex m2 = SectorIndex m1 ->
  0 <= SectorIndex m1 <= len (SectorRoots (so st)) ->
  len (Data m1) = SectorSize ->
  len (Data m2) <= SectorSize ->
  exists st',
    processModifications h [m1; m2] st = (Ret tt, st') /\
    SectorRoots (so st') = SectorRoots (so st) /\
    sectorsGained (acc st') = sectorsGained (acc st) ++ [MerkleRoot (Data m1)] /\
    sectorsRemoved (acc st') = sectorsRemoved (acc st) ++ [MerkleRoot (Data m1)] /\
    totals (acc st') =
      plus3 (totals (acc st)) (insertDelta h (proofDeadline (so st))).
Proof.
  intros Ht1 Ht2 Hsame Hi Hl1 Hl2.
  destruct (doInsert_ok h m1 st Hl1)
    as (st1 & Hrun1 & Hroots1 & Hb & Hs & Hc & Hrem1 & Hg1 & _).
  assert (Hn : (Z.to_nat (SectorIndex m1) <= length (SectorRoots (so st)))%nat)
    by (unfold len in Hi; lia).
  destruct (insert_at_spec (SectorRoots (so st)) _ (MerkleRoot (Data m1)) Hn)
    as (Hlen1 & Hat1 & _).
  assert (Hi2 : 0 <= SectorIndex m2 < len (SectorRoots (so st1))).
  { rewrite Hroots1, Hsame. unfold len in *. rewrite Hlen1. lia. }
  destruct (delete_removes_root_aux h m2 st1 Ht2 Hi2 Hl2)
    as (old & st2 & Hold & Hrun2 & Hroots2 & Hrem2 & Hg2 & Htot2).
  rewrite Hsame, Hroots1, Hat1 in Hold. injection Hold as <-.
  exists st2. split.
  - rewrite processModifications_cons.
    rewrite applyModification_insert by (assumption || lia).
    rewrite Hrun1, processModifications_cons, Hrun2. reflexivity.
  - split.
    + rewrite Hroots2, Hsame, Hroots1.
      assert (Ht : length (take (Z.to_nat (SectorIndex m1)) (SectorRoots (so st)))
                   = Z.to_nat (SectorIndex m1)) by (apply length_take_le; lia).
      rewrite take_app_length' by (now rewrite Ht).
      replace (S (Z.to_nat (SectorIndex m1)))
        with (length (take (Z.to_nat (SectorIndex m1)) (SectorRoots (so st))
                      ++ [MerkleRoot (Data m1)]))
        by (rewrite length_app, Ht; simpl; lia).
      rewrite (app_assoc _ [_] _), drop_app_length.
      apply take_drop.
    + rewrite Hg2, Hg1, Hrem2, Hrem1, Htot2.
      repeat split. unfold totals, plus3, insertDelta. simpl.
      now rewrite Hb, Hs, Hc.
Qed.

End MoreStepProperties.

(** ** Further properties of a batch *)

Section MoreBatchProperties.
Context `{HostParams}.
Implicit Types (h : Host) (m : RevisionAction) (st : BatchState).

Lemma countType_cons t m ms :
  countType t (m :: ms) = countType t [m] + countType t ms.
Proof.
  unfold countType, len. simpl.
  destruct (Specifier_eqb (Type_ m) t); simpl; lia.
Qed.

(** What one modification that succeeds does to the lengths and the
    totals, by its type. *)
Lemma step_accounting h m st st' :
  applyModification h m st = (Ret tt, st') ->
  len (SectorRoots (so st')) + countType ActionDelete [m]
    = len (SectorRoots (so st)) + countType ActionInsert [m] /\
  len (sectorsRemoved (acc st'))
    = len (sectorsRemoved (acc st))
      + countType ActionDelete [m] + countType ActionModify [m] /\
  len (sectorsGained (acc st'))
    = len (sectorsGained (acc st))
      + countType ActionInsert [m] + countType ActionModify [m] /\
  bandwidthRevenue (acc st')
    = bandwidthRevenue (acc st)
      + (countType ActionInsert [m] + countType ActionModify [m])
        * (MinimumUploadBandwidthPrice (settings h) * SectorSize) /\
  storageRevenue (acc st')
    = storageRevenue (acc st)
      + countType ActionInsert [m]
        * (MinimumStoragePrice (settings h)
           * (wrap64 (proofDeadline (so st) - blockHeight h) * SectorSize)) /\
  collateralRisked (acc st')
    = collateralRisked (acc st)
      + countType ActionInsert [m]
        * (Collateral (settings h)
           * (wrap64 (proofDeadline (so st) - blockHeight h) * SectorSize)).
Proof.
  unfold applyModification, doDelete, doInsert, doModify, badIndex, countType.
  intros Hrun. destruct (Type_ m) eqn:Ht; simpl in *.
  - destruct (Z.geb_spec (SectorIndex m) (len (SectorRoots (so st)))) as [|Hlt];
      [discriminate|].
    destruct (len (Data m) >? SectorSize); [discriminate|].
    destruct (SectorRoots (so st) !! Z.to_nat (SectorIndex m)) as [old|] eqn:Hold;
      [|discriminate].
    inversion Hrun; subst; clear Hrun. simpl.
    pose proof (lookup_lt_Some _ _ _ Hold) as Hin.
    unfold len. rewrite !length_app, length_take, length_drop. simpl.
    rewrite !Ht. simpl. repeat split; lia.
  - destruct (Z.gtb_spec (SectorIndex m) (len (SectorRoots (so st)))) as [|Hle];
      [discriminate|].
    destruct (len (Data m) >? SectorSize); [discriminate|].
    destruct (negb (len (Data m) =? SectorSize)); [discriminate|].
    inversion Hrun; subst; clear Hrun. simpl.
    unfold len in *.
    repeat (rewrite ?length_app, ?length_take, ?length_drop; simpl).
    rewrite !Ht. simpl. unfold Add, Mul, NewCurrency64. repeat split; lia.
  - destruct (SectorIndex m >=? len (SectorRoots (so st))); [discriminate|].
    destruct (len (Data m) >? SectorSize); [discriminate|].
    destruct ((Offset m >? SectorSize)
              || (wrap64 (Offset m + len (Data m)) >? SectorSize));
      [discriminate|].
    destruct (SectorRoots (so st) !! Z.to_nat (SectorIndex m)) as [old|];
      [|discriminate].
    destruct (readSector h old) as [e|sector]; [discriminate|].
    destruct (Offset m >? len sector); [discriminate|].
    inversion Hrun; subst; clear Hrun. simpl.
    unfold len. rewrite length_insert, !length_app. simpl.
    rewrite !Ht. simpl. unfold Add, Mul, NewCurrency64. repeat split; lia.
  - destruct (SectorIndex m >=? len (SectorRoots (so st))); [discriminate|].
    destruct (len (Data m) >? SectorSize); discriminate.
Qed.

Lemma processModifications_books h ms st st' :
  processModifications h ms st = (Ret tt, st') ->
  len (SectorRoots (so st')) + countType ActionDelete ms
    = len (SectorRoots (so st)) + countType ActionInsert ms /\
  len (sectorsRemoved (acc st'))
    = len (sectorsRemoved (acc st))
      + countType ActionDelete ms + countType ActionModify ms /\
  len (sectorsGained (acc st'))
    = len (sectorsGained (acc st))
      + countType ActionInsert ms + countType ActionModify ms /\
  bandwidthRevenue (acc st')
    = bandwidthRevenue (acc st)
      + (countType ActionInsert ms + countType ActionModify ms)
        * (MinimumUploadBandwidthPrice (settings h) * SectorSize) /\
  storageRevenue (acc st')
    = storageRevenue (acc st)
      + countType ActionInsert ms
        * (MinimumStoragePrice (settings h)
           * (wrap64 (proofDeadline (so st) - blockHeight h) * SectorSize)) /\
  collateralRisked (acc st')
    = collateralRisked (acc st)
      + countType ActionInsert ms
        * (Collateral (settings h)
           * (wrap64 (proofDeadline (so st) - blockHeight h) * SectorSize)).
Proof.
  revert st. induction ms as [|m ms IH]; intros st Hrun.
  - inversion Hrun; subst. unfold countType, len. simpl. repeat split; lia.
  - rewrite processModifications_cons in Hrun.
    destruct (applyModification h m st) as [[[]|e|] st1] eqn:Hm; try discriminate.
    destruct (step_accounting _ _ _ _ Hm) as (S1 & S2 & S3 & S4 & S5 & S6).
    destruct (IH _ Hrun) as (B1 & B2 & B3 & B4 & B5 & B6).
    destruct (applyModification_keeps_terms _ _ _ _ _ Hm) as (Hd & _).
    rewrite Hd in B5, B6.
    rewrite !(countType_cons _ m ms).
    repeat split; lia.
Qed.

(** The books of a processed batch, whatever the order and the mix of
    its modifications: the list of roots grows by the Inserts and
    shrinks by the Deletes; every Delete and every Modify records one
    removed root, every Insert and every Modify one gained root; each
    Insert and each Modify is charged one sector of upload bandwidth,
    each Insert one sector of storage and of collateral for the blocks
    that remain, and a Delete is charged nothing. *)
Theorem batch_accounting h ms st st' :
  processModifications h ms st = (Ret tt, st') ->
  len (SectorRoots (so st')) + countType ActionDelete ms
    = len (SectorRoots (so st)) + countType ActionInsert ms /\
  len (sectorsRemoved (acc st'))
    = len (sectorsRemoved (acc st))
      + countType ActionDelete ms + countType ActionModify ms /\
  len (sectorsGained (acc st'))
    = len (sectorsGained (acc st))
      + countType ActionInsert ms + countType ActionModify ms /\
  bandwidthRevenue (acc st')
    = bandwidthRevenue (acc st)
      + (countType ActionInsert ms + countType ActionModify ms)
        * (MinimumUploadBandwidthPrice (settings h) * SectorSize) /\
  storageRevenue (acc st')
    = storageRevenue (acc st)
      + countType ActionInsert ms
        * (MinimumStoragePrice (settings h)
           * (wrap64 (proofDeadline (so st) - blockHeight h) * SectorSize)) /\
  collateralRisked (acc st')
    = collateralRisked (acc st)
      + countType ActionInsert ms
        * (Collateral (settings h)
           * (wrap64 (proofDeadline (so st) - blockHeight h) * SectorSize)).
Proof. apply processModifications_books. Qed.

Lemma countType_perm t (b1 b2 : list RevisionAction) :
  b1 ≡ₚ b2 -> countType t b1 = countType t b2.
Proof.
  induction 1 as [|m b1 b2 _ IH|m1 m2 b|b1 b2 b3 _ IH1 _ IH2].
  - reflexivity.
  - rewrite (countType_cons t m b1), (countType_cons t m b2). lia.
  - unfold countType, len. simpl.
    destruct (Specifier_eqb (Type_ m1) t), (Specifier_eqb (Type_ m2) t);
      simpl; lia.
  - lia.
Qed.

(** Two orders of one batch, of any mix of Inserts, Deletes and
    Modifies: when both are processed from the same state they produce
    the same three totals and lists of roots, of removed roots and of
    gained roots of the same lengths. *)
Theorem mixed_batch_order_independent h (b1 b2 : list RevisionAction) st st1 st2 :
  b1 ≡ₚ b2 ->
  processModifications h b1 st = (Ret tt, st1) ->
  processModifications h b2 st = (Ret tt, st2) ->
  totals (acc st1) = totals (acc st2) /\
  len (SectorRoots (so st1)) = len (SectorRoots (so st2)) /\
  len (sectorsRemoved (acc st1)) = len (sectorsRemoved (acc st2)) /\
  len (sectorsGained (acc st1)) = len (sectorsGained (acc st2)).
Proof.
  intros Hp H1 H2.
  destruct (processModifications_books _ _ _ _ H1) as (A1 & A2 & A3 & A4 & A5 & A6).
  destruct (processModifications_books _ _ _ _ H2) as (B1 & B2 & B3 & B4 & B5 & B6).
  pose proof (countType_perm ActionInsert _ _ Hp) as Pi.
  pose proof (countType_perm ActionDelete _ _ Hp) as Pd.
  pose proof (countType_perm ActionModify _ _ Hp) as Pm.
  rewrite Pi, Pd in A1. rewrite Pd, Pm in A2. rewrite Pi, Pm in A3.
  rewrite Pi, Pm in A4. rewrite Pi in A5, A6.
  split; [unfold totals; rewrite A4, A5, A6, B4, B5, B6; reflexivity|].
  repeat split; lia.
Qed.

End MoreBatchProperties.

(** ** What the obligation mutator is handed *)

Section CommitProperties.
Context `{HostParams}.
Implicit Types (h : Host) (m : RevisionAction) (st : BatchState).

Lemma gained_pairs_step h m st res st' :
  applyModification h m st = (res, st') ->
  sectorsGained (acc st) = map MerkleRoot (gainedSectorData (acc st)) ->
  sectorsGained (acc st') = map MerkleRoot (gainedSectorData (acc st')).
Proof.
  unfold applyModification, doDelete, doInsert, doModify.
  intros Hrun Hinv.
  repeat match type of Hrun with
         | (if ?c then _ else _) = _ => destruct c
         | match ?x with _ => _ end = _ => destruct x
         end;
    inversion Hrun; subst; simpl; try assumption;
    rewrite List.map_app, Hinv; reflexivity.
Qed.

Lemma gained_pairs_batch h ms st res st' :
  processModifications h ms st = (res, st') ->
  sectorsGained (acc st) = map MerkleRoot (gainedSectorData (acc st)) ->
  sectorsGained (acc st') = map MerkleRoot (gainedSectorData (acc st')).
Proof.
  revert st. induction ms as [|m ms IH]; intros st Hrun Hinv.
  - inversion Hrun; subst; assumption.
  - rewrite processModifications_cons in Hrun.
    destruct (applyModification h m st) as [[[]|e|] st1] eqn:Hm;
      pose proof (gained_pairs_step _ _ _ _ _ Hm Hinv) as Hinv1.
    + eapply IH; eauto.
    + inversion Hrun; subst; assumption.
    + inversion Hrun; subst; assumption.
Qed.

Lemma gained_sizes_step h m st res st' :
  (forall root sector, readSector h root = inr sector -> len sector = SectorSize) ->
  applyModification h m st = (res, st') ->
  Forall (fun d => len d = SectorSize) (gainedSectorData (acc st)) ->
  Forall (fun d => len d = SectorSize) (gainedSectorData (acc st')).
Proof.
  unfold applyModification, doDelete, doInsert, doModify.
  intros Hstore Hrun Hinv.
  destruct (badIndex m (SectorRoots (so st))); [inversion Hrun; subst; auto|].
  destruct (len (Data m) >? SectorSize); [inversion Hrun; subst; auto|].
  destruct (Type_ m).
  - destruct (SectorRoots (so st) !! Z.to_nat (SectorIndex m));
      inversion Hrun; subst; auto.
  - destruct (Z.eqb_spec (len (Data m)) SectorSize) as [Heq|Hne]; simpl in Hrun;
      inversion Hrun; subst; simpl; auto.
    apply Forall_app. split; [assumption|]. apply Forall_cons_2; auto.
  - destruct ((Offset m >? SectorSize)
              || (wrap64 (Offset m + len (Data m)) >? SectorSize));
      [inversion Hrun; subst; auto|].
    cbv zeta in Hrun.
    destruct (SectorRoots (so st) !! Z.to_nat (SectorIndex m)) as [old|];
      [|inversion Hrun; subst; auto].
    destruct (readSector h old) as [e|sector] eqn:Hread;
      [inversion Hrun; subst; auto|].
    destruct (Z.gtb_spec (Offset m) (len sector)) as [|Hlong];
      inversion Hrun; subst; simpl; auto.
    apply Forall_app. split; [assumption|]. apply Forall_cons_2; auto.
    unfold len. rewrite length_overlay.
    + exact (Hstore _ _ Hread).
    + destruct (Z.le_gt_cases 0 (Offset m)); unfold len in Hlong; lia.
  - inversion Hrun; subst; auto.
Qed.

Lemma gained_sizes_batch h ms st res st' :
  (forall root sector, readSector h root = inr sector -> len sector = SectorSize) ->
  processModifications h ms st = (res, st') ->
  Forall (fun d => len d = SectorSize) (gainedSectorData (acc st)) ->
  Forall (fun d => len d = SectorSize) (gainedSectorData (acc st')).
Proof.
  intros Hstore. revert st. induction ms as [|m ms IH]; intros st Hrun Hinv.
  - inversion Hrun; subst; assumption.
  - rewrite processModifications_cons in Hrun.
    destruct (applyModification h m st) as [[[]|e|] st1] eqn:Hm;
      pose proof (gained_sizes_step _ _ _ _ _ Hstore Hm Hinv) as Hinv1.
    + eapply IH; eauto.
    + inversion Hrun; subst; assumption.
    + inversion Hrun; subst; assumption.
Qed.

(** The call of the mutator in the events a round added, if there is
    one, carries the lists of the processed batch. *)
Lemma round_commit_lists (r : Round) (w : World) res w' evs o removed gained data :
  managedRevisionIteration r w = (res, w') ->
  trace w' = trace w ++ evs ->
  In (ModifyStorageObligation o removed gained data) evs ->
  exists mods st,
    sentModifications r = inr mods /\
    processModifications (host r) mods (closureStart w) = (Ret tt, st) /\
    o = obligation w' /\
    SectorRoots o = SectorRoots (so st) /\
    removed = sectorsRemoved (acc st) /\
    gained = sectorsGained (acc st) /\
    data = gainedSectorData (acc st).
Proof.
  intros Hrun Htr Hin.
  destruct (round_commit_or_not r w res w' Hrun)
    as (evs0 & Htr0 & _ & Hcases).
  assert (evs0 = evs) as -> by (rewrite Htr0 in Htr; now apply app_inv_head in Htr).
  assert (Hf : In (ModifyStorageObligation o removed gained data)
                  (List.filter isCommitCall evs))
    by (apply List.filter_In; split; [assumption|reflexivity]).
  destruct Hcases as [[Hnone _]|Hcommit].
  - rewrite Hnone in Hf. contradiction.
  - destruct Hcommit as (mods & st & rev & sig & Hm & Hb & _ & _ & _ & _ & _ & Ho & Hc).
    rewrite Hc in Hf. destruct Hf as [Heq|[]].
    inversion Heq; subst.
    exists mods, st. repeat split; auto. rewrite Ho. reflexivity.
Qed.

(** Whenever a round calls the obligation mutator, the gained roots it
    passes are, one by one and in order, the Merkle roots of the gained
    payloads it passes with them. *)
Theorem mutator_gets_roots_of_payloads
    (r : Round) (w : World) res w' evs o removed gained data :
  managedRevisionIteration r w = (res, w') ->
  trace w' = trace w ++ evs ->
  In (ModifyStorageObligation o removed gained data) evs ->
  gained = map MerkleRoot data.
Proof.
  intros Hrun Htr Hin.
  destruct (round_commit_lists _ _ _ _ _ _ _ _ _ Hrun Htr Hin)
    as (mods & st & _ & Hb & _ & _ & _ & -> & ->).
  apply (gained_pairs_batch _ _ _ _ _ Hb). reflexivity.
Qed.

(** If the sector store only ever returns full sectors, every payload a
    round passes to the obligation mutator is exactly one sector long,
    and the mutator gets one root for each Delete and Modify of the
    batch as removed and one payload for each Insert and Modify as
    gained. *)
Theorem mutator_gets_full_sectors
    (r : Round) (w : World) res w' evs o removed gained data :
  (forall root sector,
     readSector (host r) root = inr sector -> len sector = SectorSize) ->
  managedRevisionIteration r w = (res, w') ->
  trace w' = trace w ++ evs ->
  In (ModifyStorageObligation o removed gained data) evs ->
  Forall (fun d => len d = SectorSize) data /\
  exists mods,
    sentModifications r = inr mods /\
    len removed = countType ActionDelete mods + countType ActionModify mods /\
    len data = countType ActionInsert mods + countType ActionModify mods /\
    len (SectorRoots o) + countType ActionDelete mods
      = len (SectorRoots (obligation w)) + countType ActionInsert mods.
Proof.
  intros Hstore Hrun Htr Hin.
  destruct (round_commit_lists _ _ _ _ _ _ _ _ _ Hrun Htr Hin)
    as (mods & st & Hm & Hb & _ & Hroots & -> & Hg & ->).
  split.
  - apply (gained_sizes_batch _ _ _ _ _ Hstore Hb). apply Forall_nil_2.
  - exists mods. split; [assumption|].
    destruct (processModifications_books _ _ _ _ Hb) as (B1 & B2 & B3 & _).
    pose proof (gained_pairs_batch _ _ _ _ _ Hb eq_refl) as Hpairs.
    assert (Hlen : len (gainedSectorData (acc st)) = len (sectorsGained (acc st)))
      by (unfold len; now rewrite Hpairs, List.length_map).
    rewrite Hroots, Hlen. unfold closureStart in B1, B2, B3.
    simpl in B1, B2, B3. unfold len in B2 at 2. unfold len in B3 at 2.
    simpl in B2, B3. repeat split; lia.
Qed.

End CommitProperties.

(** ** Further properties of a round *)

Section MoreRoundProperties.
Context `{HostParams}.

Ltac unfold_round :=
  unfold managedRevisionIteration, exchangeSignatures, commit,
    WriteNegotiationRejection, WriteNegotiationAcceptance, runClosure,
    verifyRevision, closureStart, check, expect, emit, throw, get, modify,
    mbind, M_bind, mret, M_ret; simpl.

Ltac round_cases :=
  repeat match goal with
         | |- context [match ?x with _ => _ end] => is_var x; destruct x; simpl
         | |- context [if ?x then _ else _] => is_var x; destruct x; simpl
         | |- context [WholeTransaction ?x] =>
             is_var x; destruct x as [[|] ?]; simpl
         | |- context [processModifications ?h ?m ?s] =>
             destruct (processModifications h m s) as [[[]|?|] ?] eqn:?; simpl
         end.

Lemma app_eq_self_nil {A} (l evs : list A) : l = l ++ evs -> evs = [].
Proof.
  intros Heq. rewrite <- (app_nil_r l) in Heq at 1.
  now apply app_inv_head in Heq.
Qed.

(** Reads the events of a round off an equation between traces. *)
Ltac pin_events Htr :=
  simpl in Htr; rewrite <- ?app_assoc in Htr; simpl in Htr;
  first [apply app_inv_head in Htr | apply app_eq_self_nil in Htr];
  subst.

(** A round that fails before it has a batch (the settings cannot be
    sent, the peer does not accept or says stop, or the batch cannot be
    read) returns the error of the step that failed, leaves the
    obligation exactly as it was and has written nothing if it was the
    settings that failed and only the settings otherwise. *)
Theorem round_failing_early_is_harmless (r : Round) (w : World) res w' :
  managedRevisionIteration r w = (res, w') ->
  rpcSettings r <> None \/ negotiationAcceptance r <> None \/
    (exists e, sentModifications r = inl e) ->
  obligation w' = obligation w /\
  exists e, res = Err e /\
    ((rpcSettings r = Some e /\ trace w' = trace w) \/
     (rpcSettings r = None /\ negotiationAcceptance r = Some e /\
      trace w' = trace w ++ [SentSettings]) \/
     (rpcSettings r = None /\ negotiationAcceptance r = None /\
      sentModifications r = inl e /\ trace w' = trace w ++ [SentSettings])).
Proof.
  unfold_round. destruct r; simpl.
  intros Hrun Hearly. revert Hrun.
  destruct rpcSettings0 as [e|]; simpl.
  { intros Heq; inversion Heq; subst. split; [reflexivity|].
    exists e. split; [reflexivity|]. left. auto. }
  destruct negotiationAcceptance0 as [e|]; simpl.
  { intros Heq; inversion Heq; subst; simpl. split; [reflexivity|].
    exists e. split; [reflexivity|]. right. left. auto. }
  destruct sentModifications0 as [e|mods]; simpl.
  { intros Heq; inversion Heq; subst; simpl. split; [reflexivity|].
    exists e. split; [reflexivity|]. right. right. auto. }
  destruct Hearly as [Hs|[Ha|[e He]]]; congruence.
Qed.

(** A round returns [nil] exactly when every step succeeded: the
    settings went out, the peer accepted, the batch was read and
    processed, the revision was read and verified, the first acceptance
    was written, the renter's signature was read and does not cover the
    whole transaction, the host signed, the transaction was valid, the
    obligation mutator returned [nil], and the second acceptance and
    the host's signature were written. Then the round has written
    exactly the settings, the two acceptances and the host's signature,
    has called the mutator once between the acceptances, and leaves the
    obligation with the batch applied and the totals added. *)
Theorem round_success_means_committed (r : Round) (w : World) w' :
  managedRevisionIteration r w = (Ret tt, w') <->
  exists mods st rev sig enc,
    rpcSettings r = None /\
    negotiationAcceptance r = None /\
    sentModifications r = inr mods /\
    processModifications (host r) mods (closureStart w) = (Ret tt, st) /\
    sentRevision r = inr rev /\
    verifyRevision (so st) rev (storageRevenue (acc st))
      (bandwidthRevenue (acc st)) (collateralRisked (acc st)) = None /\
    firstAcceptance r = None /\
    sentRenterSig r = inr sig /\ WholeTransaction sig = false /\
    signHash r = inr enc /\
    standaloneValid r = None /\
    obligationMutator r = None /\
    secondAcceptance r = None /\
    wroteHostSig r = None /\
    obligation w' =
      add_revenues (so st) (storageRevenue (acc st))
        (bandwidthRevenue (acc st)) (collateralRisked (acc st)) /\
    trace w' =
      trace w ++
      [SentSettings; WroteAcceptance;
       ModifyStorageObligation (obligation w') (sectorsRemoved (acc st))
         (sectorsGained (acc st)) (gainedSectorData (acc st));
       WroteAcceptance;
       WroteSignature {| WholeTransaction := false; Signature := enc |}].
Proof.
  split.
  - unfold_round. destruct r; simpl.
    round_cases; intros Heq; inversion Heq; subst; clear Heq; simpl.
    do 5 eexists. repeat split; eauto.
    simpl. rewrite <- !app_assoc. reflexivity.
  - intros (mods & st & rev & [wt sg] & enc & Hs & Ha & Hm & Hb & Hr & _ & Hf
            & Hsig & Hwt & Hsh & Hv & Hmut & Hsa & Hw & Ho & Htr).
    simpl in Hwt. subst wt. destruct w' as [o' tr']. simpl in Ho, Htr.
    unfold_round. destruct r; simpl in *. subst. simpl.
    unfold closureStart in Hb. rewrite Hb. simpl.
    rewrite <- !app_assoc. reflexivity.
Qed.

(** A rejection frame is the last thing a round writes, a round writes
    at most one, and the reason it carries is the error the round
    returns. *)
Theorem rejection_is_last_and_returned (r : Round) (w : World) res w' evs e :
  managedRevisionIteration r w = (res, w') ->
  trace w' = trace w ++ evs ->
  In (WroteRejection e) evs ->
  res = Err e /\
  last evs = Some (WroteRejection e) /\
  List.filter isRejection evs = [WroteRejection e].
Proof.
  unfold_round. destruct r; simpl.
  round_cases; intros Heq Htr Hin; inversion Heq; subst; clear Heq;
    pin_events Htr; simpl in Hin;
    repeat match goal with
           | Hor : _ \/ _ |- _ => destruct Hor as [Hor|Hor]
           | Hf : False |- _ => contradiction
           | Hev : _ = WroteRejection _ |- _ => inversion Hev; subst; clear Hev
           end;
    repeat split; reflexivity.
Qed.

(** A round whose batch is empty leaves the obligation exactly as it
    was, however the round ends; if it gets as far as the obligation
    mutator, it calls it on that unchanged obligation with nothing
    removed and nothing gained. *)
Theorem empty_batch_round_changes_nothing (r : Round) (w : World) res w' :
  sentModifications r = inr [] ->
  managedRevisionIteration r w = (res, w') ->
  obligation w' = obligation w /\
  forall evs o removed gained data,
    trace w' = trace w ++ evs ->
    In (ModifyStorageObligation o removed gained data) evs ->
    o = obligation w /\ removed = [] /\ gained = [] /\ data = [].
Proof.
  intros Hm Hrun.
  assert (Hsame : forall o : storageObligation, add_revenues o 0 0 0 = o).
  { intros [? ? ? ? ? ?]. unfold add_revenues, Add. simpl.
    now rewrite !Z.add_0_r. }
  revert Hrun. unfold_round. destruct r; simpl in *. subst. simpl.
  round_cases; intros Heq; inversion Heq; subst; clear Heq; simpl;
    rewrite ?Hsame; (split; [reflexivity|]);
    intros evs o removed gained data Htr Hin;
    pin_events Htr; simpl in Hin;
    repeat match goal with
           | Hor : _ \/ _ |- _ => destruct Hor as [Hor|Hor]
           | Hf : False |- _ => contradiction
           | Hev : _ = ModifyStorageObligation _ _ _ _ |- _ =>
               inversion Hev; subst; clear Hev
           end;
    rewrite ?Hsame; repeat split; reflexivity.
Qed.

End MoreRoundProperties.

(** ** Charges and sessions *)

Section SessionProperties.
Context `{HostParams}.
Implicit Types (h : Host) (m : RevisionAction) (st : BatchState).

(** A Modify whose data repeats the bytes the sector already has at the
    offset (an empty Modify among them), on a store that returns the
    full sector kept under the root: the list of roots is unchanged, yet a
    full sector of upload bandwidth is charged and the root is recorded
    both as removed and as gained. *)
Theorem modify_same_bytes_keeps_root h m st old sector :
  Type_ m = ActionModify ->
  0 <= SectorIndex m ->
  0 <= Offset m ->
  SectorSize < 2 ^ 64 ->
  Offset m + len (Data m) <= SectorSize ->
  SectorRoots (so st) !! Z.to_nat (SectorIndex m) = Some old ->
  readSector h old = inr sector ->
  len sector = SectorSize ->
  MerkleRoot sector = old ->
  take (length (Data m)) (drop (Z.to_nat (Offset m)) sector) = Data m ->
  exists st',
    applyModification h m st = (Ret tt, st') /\
    SectorRoots (so st') = SectorRoots (so st) /\
    sectorsRemoved (acc st') = sectorsRemoved (acc st) ++ [old] /\
    sectorsGained (acc st') = sectorsGained (acc st) ++ [old] /\
    gainedSectorData (acc st') = gainedSectorData (acc st) ++ [sector] /\
    totals (acc st') = plus3 (totals (acc st)) (modifyDelta h).
Proof.
  intros Ht Hi0 Ho0 HS Hfit Hold Hread Hfull Hroot Hsame.
  pose proof (len_nonneg (Data m)) as Hd0.
  pose proof (lookup_lt_Some _ _ _ Hold) as Hin.
  assert (Hlen : (length (Data m) <= length sector - Z.to_nat (Offset m))%nat).
  { rewrite <- Hsame at 1. rewrite length_take, length_drop. lia. }
  assert (Hov : take (Z.to_nat (Offset m)) sector
                ++ copy (drop (Z.to_nat (Offset m)) sector) (Data m) = sector).
  { rewrite copy_fits by (rewrite length_drop; lia).
    rewrite <- Hsame at 1.
    rewrite take_drop. apply take_drop. }
  rewrite applyModification_modify by (assumption || (unfold len in *; lia)).
  unfold doModify.
  assert (Hw : wrap64 (Offset m + len (Data m)) = Offset m + len (Data m))
    by (unfold wrap64; apply Z.mod_small; lia).
  rewrite Hw.
  destruct (Z.gtb_spec (Offset m) SectorSize); [lia|].
  destruct (Z.gtb_spec (Offset m + len (Data m)) SectorSize); [lia|].
  simpl. rewrite Hold, Hread.
  destruct (Z.gtb_spec (Offset m) (len sector)); [lia|].
  rewrite Hov, Hroot, (list_insert_id _ _ _ Hold).
  eexists. split; [reflexivity|]. simpl.
  repeat split.
  unfold totals, plus3, modifyDelta, Add, Mul, NewCurrency64. simpl.
  f_equal; [f_equal|]; lia.
Qed.

Lemma wrap64_nonneg (x : Z) : 0 <= wrap64 x.
Proof. unfold wrap64. apply Z.mod_pos_bound. lia. Qed.

(** With prices that are not negative, no round lowers a counter of the
    obligation, however the round ends. *)
Theorem round_never_lowers_counters (r : Round) (w : World) res w' :
  0 <= SectorSize ->
  0 <= MinimumUploadBandwidthPrice (settings (host r)) ->
  0 <= MinimumStoragePrice (settings (host r)) ->
  0 <= Collateral (settings (host r)) ->
  managedRevisionIteration r w = (res, w') ->
  AnticipatedRevenue (obligation w) <= AnticipatedRevenue (obligation w') /\
  ConfirmedRevenue (obligation w) <= ConfirmedRevenue (obligation w') /\
  RiskedCollateral (obligation w) <= RiskedCollateral (obligation w').
Proof.
  intros HS Hup Hsp Hcol Hrun.
  destruct (round_commit_or_not r w res w' Hrun)
    as (evs & _ & _ & [[_ Hc]|Hcommit]).
  - unfold counters in Hc. injection Hc as -> -> ->. lia.
  - destruct Hcommit as (mods & st & rev & sig & _ & Hb & _ & _ & _ & _ & _ & -> & _).
    destruct (processModifications_keeps_terms _ _ _ _ _ Hb) as (_ & _ & Hc).
    destruct (processModifications_books _ _ _ _ Hb) as (_ & _ & _ & B4 & B5 & B6).
    unfold counters, closureStart in Hc. simpl in Hc. injection Hc as Ha Hcf Hrc.
    unfold closureStart in B4, B5, B6. simpl in B4, B5, B6.
    pose proof (wrap64_nonneg (proofDeadline (obligation w) - blockHeight (host r))).
    assert (0 <= countType ActionInsert mods) by apply len_nonneg.
    assert (0 <= countType ActionModify mods) by apply len_nonneg.
    simpl. unfold Add. rewrite Ha, Hcf, Hrc, B4, B5, B6.
    repeat split; nia.
Qed.

Lemma runRounds_loop (rs post : list Round) (w w1 : World) :
  runRounds rs w = Some w1 ->
  revisionLoop (rs ++ post) w = revisionLoop post w1.
Proof.
  revert w. induction rs as [|r rs IH]; intros w Hrun; simpl in *.
  - now inversion Hrun.
  - destruct (managedRevisionIteration r w) as [[[]|e|] w0]; try discriminate.
    now apply IH.
Qed.

(** A session whose rounds all return [nil] until its time is up ends
    without an error: the caller gets [nil], the obligation is what the
    last round left, and the release of the lock closes the trace. *)
Theorem idle_close_is_no_error (s : Session) (o : storageObligation) (w' : World) :
  recentRevision s = inr o ->
  lockResult s = None ->
  runRounds (rounds s)
    {| obligation := o; trace := [ExchangedRecentRevision; Locked] |} = Some w' ->
  managedRPCReviseContract s
    = (Ret tt, Some (obligation w'), trace w' ++ deferredUnlock s).
Proof.
  intros Hrec Hlock Hall. unfold managedRPCReviseContract.
  rewrite Hrec, Hlock.
  rewrite <- (app_nil_r (rounds s)), (runRounds_loop _ [] _ _ Hall).
  reflexivity.
Qed.

Lemma runRounds_trace (rs : list Round) (w w1 : World) :
  runRounds rs w = Some w1 ->
  exists evs, trace w1 = trace w ++ evs /\ List.filter isLockEvent evs = [].
Proof.
  intros Hall. apply (revisionLoop_trace rs w (Ret tt) w1).
  rewrite <- (app_nil_r rs), (runRounds_loop _ [] _ _ Hall). reflexivity.
Qed.

(** The first round that returns an error ends the session, and the
    rounds after it are never run: the caller gets that error, or [nil]
    when the error is the stop response of the peer; the obligation is
    what the failing round left, and the deferred call closes the
    trace. The lock is held through the failing round; when
    [unlockStorageObligation] returns [nil] the release is the last
    thing the session does and the lock is no longer held, and when it
    returns an error the lock is still held. *)
Theorem session_ends_at_first_error
    (s : Session) (o : storageObligation) pre r post (w1 w2 : World) e :
  recentRevision s = inr o ->
  lockResult s = None ->
  rounds s = pre ++ r :: post ->
  runRounds pre {| obligation := o;
                   trace := [ExchangedRecentRevision; Locked] |} = Some w1 ->
  managedRevisionIteration r w1 = (Err e, w2) ->
  managedRPCReviseContract s
    = (if error_eqb e ErrStopResponse then Ret tt else Err e,
       Some (obligation w2), trace w2 ++ deferredUnlock s) /\
  heldAfter (trace w2) = true /\
  (unlockResult s = None ->
     last (trace w2 ++ deferredUnlock s) = Some Unlocked /\
     heldAfter (trace w2 ++ deferredUnlock s) = false) /\
  (forall e', unlockResult s = Some e' ->
     heldAfter (trace w2 ++ deferredUnlock s) = true).
Proof.
  intros Hrec Hlock Hrounds Hpre Hr.
  assert (Hheld : heldAfter (trace w2) = true).
  { destruct (runRounds_trace _ _ _ Hpre) as (evs1 & Ht1 & Hf1).
    destruct (round_commit_or_not _ _ _ _ Hr) as (evs2 & Ht2 & Hf2 & _).
    rewrite Ht2, heldAfter_app_free by assumption.
    rewrite Ht1, heldAfter_app_free by assumption. reflexivity. }
  split; [|split; [exact Hheld|split]].
  - unfold managedRPCReviseContract.
    rewrite Hrec, Hlock, Hrounds, (runRounds_loop _ _ _ _ Hpre).
    simpl. rewrite Hr. destruct (error_eqb e ErrStopResponse); reflexivity.
  - intros Hu. unfold deferredUnlock, unlockStorageObligation. rewrite Hu.
    split; [apply last_snoc|apply heldAfter_snoc].
  - intros e' Hu. unfold deferredUnlock, unlockStorageObligation. rewrite Hu.
    change [UnlockFailed e'; LoggedCritical e']
      with ([UnlockFailed e'] ++ [LoggedCritical e']).
    rewrite app_assoc, !heldAfter_snoc. exact Hheld.
Qed.

(** The stop response of the peer, read at the head of a round: the
    session ends with [nil], the obligation is exactly what the rounds
    before left, and the round has only sent the settings. *)
Theorem stop_response_ends_session
    (s : Session) (o : storageObligation) pre r post (w1 : World) :
  recentRevision s = inr o ->
  lockResult s = None ->
  rounds s = pre ++ r :: post ->
  runRounds pre {| obligation := o;
                   trace := [ExchangedRecentRevision; Locked] |} = Some w1 ->
  rpcSettings r = None ->
  negotiationAcceptance r = Some ErrStopResponse ->
  managedRPCReviseContract s
    = (Ret tt, Some (obligation w1),
       trace w1 ++ [SentSettings] ++ deferredUnlock s).
Proof.
  intros Hrec Hlock Hrounds Hpre Hs Ha. unfold managedRPCReviseContract.
  rewrite Hrec, Hlock, Hrounds, (runRounds_loop _ _ _ _ Hpre).
  simpl. unfold managedRevisionIteration, check, emit, throw, mbind, M_bind,
    mret, M_ret. rewrite Hs, Ha. simpl.
  now rewrite <- app_assoc.
Qed.

Lemma filter_nil_not_in {A} (f : A -> bool) (l : list A) (x : A) :
  List.filter f l = [] -> In x l -> f x = false.
Proof.
  intros Hf Hin. destruct (f x) eqn:Hx; [|reflexivity].
  assert (Hx' : In x (List.filter f l)) by (apply List.filter_In; auto).
  rewrite Hf in Hx'. contradiction.
Qed.

Lemma filter_app_nil {A} (f : A -> bool) (l1 l2 : list A) :
  List.filter f (l1 ++ l2) = [] -> List.filter f l1 = [].
Proof.
  rewrite List.filter_app. intros Heq.
  now destruct (List.filter f l1).
Qed.

(** Every session opens with the exchange of the recent revision (line
    251), before the lock is asked for, and a session that cannot get
    the obligation or the lock does nothing else. Everything after
    that exchange, the frames of the rounds and the calls of the
    obligation mutator, happens while the session holds the lock: in
    the trace such an event has the acquisition before it and no call
    of [unlockStorageObligation] before it, the lock is held when it
    happens, and the call of [unlockStorageObligation] comes after
    it. *)
Theorem rounds_act_only_under_lock (s : Session) :
  (exists rest,
     (managedRPCReviseContract s).2 = ExchangedRecentRevision :: rest) /\
  ((exists e, recentRevision s = inl e) \/ (exists e, lockResult s = Some e) ->
     (managedRPCReviseContract s).2 = [ExchangedRecentRevision]) /\
  forall pre ev post,
    (managedRPCReviseContract s).2 = pre ++ ev :: post ->
    isLockEvent ev = false ->
    ev <> ExchangedRecentRevision ->
    In Locked pre /\
    List.filter isRelease pre = [] /\
    heldAfter pre = true /\
    exists rel, In rel post /\ isRelease rel = true.
Proof.
  unfold managedRPCReviseContract.
  destruct (recentRevision s) as [e|o]; simpl.
  { split; [now exists []|]. split; [reflexivity|].
    intros [|p1 [|p2 pre]] ev post Heq Hev Hne; by simplify_eq/=. }
  destruct (lockResult s) as [e|]; simpl.
  { split; [now exists []|]. split; [reflexivity|].
    intros [|p1 [|p2 pre]] ev post Heq Hev Hne; by simplify_eq/=. }
  destruct (revisionLoop (rounds s)
              {| obligation := o; trace := [ExchangedRecentRevision; Locked] |})
    as [res w] eqn:Hloop.
  destruct (revisionLoop_trace _ _ _ _ Hloop) as (evs & Htr & Hfree).
  simpl in *. rewrite Htr. clear Htr Hloop.
  split; [eexists; reflexivity|].
  split; [intros [[e He]|[e He]]; discriminate|].
  intros pre ev post Heq Hev Hne.
  destruct pre as [|p1 pre]; simpl in Heq; [by simplify_eq/=|].
  injection Heq as Hp1 Heq. subst p1.
  destruct pre as [|p2 pre]; simpl in Heq; [by simplify_eq/=|].
  injection Heq as Hp2 Heq. subst p2.
  apply app_eq_inv in Heq.
  destruct Heq as [(k & Hevs & Hrest)|(k & Hpre & Hrest)].
  - destruct k as [|kev k']; simpl in Hrest.
    + unfold deferredUnlock, unlockStorageObligation in Hrest.
      destruct (unlockResult s); by simplify_eq/=.
    + injection Hrest as Hk Hpost. subst kev post evs.
      pose proof (filter_app_nil _ _ _ Hfree) as Hpref.
      split; [right; now left|]. split; [|split].
      * simpl. now apply lock_events_release.
      * apply (heldAfter_app_free [ExchangedRecentRevision; Locked] pre Hpref).
      * unfold deferredUnlock, unlockStorageObligation. destruct (unlockResult s) as [e|].
        -- exists (UnlockFailed e). split; [|reflexivity].
           apply in_or_app. right. now left.
        -- exists Unlocked. split; [|reflexivity].
           apply in_or_app. right. now left.
  - exfalso. unfold deferredUnlock, unlockStorageObligation in Hrest.
    destruct (unlockResult s);
      (destruct k as [|k1 [|k2 [|k3 k]]]; by simplify_eq/=).
Qed.

End SessionProperties.

(** ** The further properties on concrete inputs *)

(** Deleting the middle one of three roots. *)
Lemma delete_removes_root_witness :
  exists st',
    applyModification (toyHost 10) (deleteAt 1)
      (toyState [sectorA; sectorB; sectorC]) = (Ret tt, st') /\
    length (SectorRoots (so st')) = 2%nat /\
    SectorRoots (so st') !! 0%nat = Some sectorA /\
    SectorRoots (so st') !! 1%nat = Some sectorC /\
    sectorsRemoved (acc st') = [sectorB] /\
    totals (acc st') = (0, 0, 0).
Proof.
  destruct (@delete_removes_root toyParams (toyHost 10) (deleteAt 1)
              (toyState [sectorA; sectorB; sectorC]) eq_refl
              ltac:(by_evaluation) ltac:(by_evaluation))
    as (old & st' & Hold & Hrun & Hlen & Hbefore & Hafter & Hrem & _ & _ & Htot).
  injection Hold as <-.
  exists st'. split; [exact Hrun|].
  split; [apply eq_add_S; exact Hlen|].
  split; [etransitivity; [apply (Hbefore 0%nat); simpl; lia|reflexivity]|].
  split; [etransitivity; [apply (Hafter 1%nat); simpl; lia|reflexivity]|].
  split; [exact Hrem|exact Htot].
Defined.

(** A store that answers with two bytes, and a Modify at offset 3. *)
Lemma panics_only_on_short_sector_witness :
  (applyModification shortHost (action ActionModify 0 3 []) (toyState [sectorA])).1
  = Panic.
Proof.
  apply (proj2 (@panics_only_on_short_sector toyParams shortHost
                  (action ActionModify 0 3 []) (toyState [sectorA])
                  ltac:(by_evaluation))).
  split; [reflexivity|]. split; [by_evaluation|]. split; [by_evaluation|].
  split; [by_evaluation|]. split; [vm_compute; discriminate|].
  exists sectorA, [x01; x01].
  split; [reflexivity|]. split; [reflexivity|by_evaluation].
Defined.

(** Two bytes written at offset 1 of a two-byte slice: the second byte
    of the data is dropped. *)
Lemma modify_writes_only_range_witness :
  exists sector',
    gainedSectorData
      (acc (applyModification shortHost patch (toyState [sectorA])).2)
      = [sector'] /\
    length sector' = 2%nat /\
    sector' !! 0%nat = Some x01 /\
    sector' !! 1%nat = Some x0f.
Proof.
  assert (Hrun : applyModification shortHost patch (toyState [sectorA])
                 = (Ret tt,
                    (applyModification shortHost patch (toyState [sectorA])).2))
    by (vm_compute; reflexivity).
  destruct (@modify_writes_only_range toyParams shortHost patch
              (toyState [sectorA]) _ eq_refl
              ltac:(by_evaluation) ltac:(by_evaluation) Hrun)
    as (old & sector & sector' & Hold & Hread & Hg & _ & Hlen & Hout & Hin).
  injection Hread as <-.
  exists sector'. split; [exact Hg|]. split; [exact Hlen|]. split.
  - etransitivity; [apply (Hout 0%nat); left; simpl; lia|reflexivity].
  - etransitivity; [apply (Hin 1%nat); simpl; lia|reflexivity].
Defined.

(** Insert at 1, then Delete at 1. *)
Lemma insert_then_delete_restores_roots_witness :
  exists st',
    processModifications (toyHost 10) [insertC 1; deleteAt 1]
      (toyState [sectorA; sectorB]) = (Ret tt, st') /\
    SectorRoots (so st') = [sectorA; sectorB] /\
    sectorsGained (acc st') = [sectorC] /\
    sectorsRemoved (acc st') = [sectorC] /\
    totals (acc st') = (12, 800, 1120).
Proof.
  destruct (@insert_then_delete_restores_roots toyParams (toyHost 10)
              (insertC 1) (deleteAt 1) (toyState [sectorA; sectorB])
              eq_refl eq_refl eq_refl ltac:(by_evaluation) eq_refl
              ltac:(by_evaluation))
    as (st' & Hrun & Hroots & Hg & Hrem & Htot).
  exists st'. split; [exact Hrun|]. split; [exact Hroots|].
  split; [exact Hg|]. split; [exact Hrem|exact Htot].
Defined.

(** Writing to a sector the two bytes it already has. *)
Lemma modify_same_bytes_keeps_root_witness :
  exists st',
    applyModification (toyHost 10) samePatch (toyState [sectorA]) = (Ret tt, st') /\
    SectorRoots (so st') = [sectorA] /\
    sectorsRemoved (acc st') = [sectorA] /\
    sectorsGained (acc st') = [sectorA] /\
    totals (acc st') = (12, 0, 0).
Proof.
  destruct (@modify_same_bytes_keeps_root toyParams (toyHost 10) samePatch
              (toyState [sectorA]) sectorA sectorA eq_refl
              ltac:(by_evaluation) ltac:(by_evaluation) ltac:(by_evaluation)
              ltac:(by_evaluation) eq_refl eq_refl eq_refl eq_refl eq_refl)
    as (st' & Hrun & Hroots & Hrem & Hg & _ & Htot).
  exists st'. split; [exact Hrun|]. split; [exact Hroots|].
  split; [exact Hrem|]. split; [exact Hg|exact Htot].
Defined.

(** One Insert, one Modify and one Delete. *)
Lemma batch_accounting_witness :
  let st' := (processModifications (toyHost 10) mixedBatch (toyState [sectorA])).2 in
  len (SectorRoots (so st')) + 1 = 1 + 1 /\
  len (sectorsRemoved (acc st')) = 2 /\
  len (sectorsGained (acc st')) = 2 /\
  totals (acc st') = (2 * 12, 1 * 800, 1 * 1120).
Proof.
  cbv zeta.
  assert (Hrun : processModifications (toyHost 10) mixedBatch (toyState [sectorA])
                 = (Ret tt, (processModifications (toyHost 10) mixedBatch
                               (toyState [sectorA])).2))
    by (vm_compute; reflexivity).
  destruct (@batch_accounting toyParams _ _ _ _ Hrun)
    as (B1 & B2 & B3 & B4 & B5 & B6).
  split; [exact B1|].
  split; [exact B2|]. split; [exact B3|].
  unfold totals. rewrite B4, B5, B6. reflexivity.
Defined.

(** An Insert and a Delete in both orders. *)
Lemma mixed_batch_order_independent_witness :
  exists st1 st2,
    processModifications (toyHost 10) [insertC 0; deleteAt 1]
      (toyState [sectorA; sectorB]) = (Ret tt, st1) /\
    processModifications (toyHost 10) [deleteAt 1; insertC 0]
      (toyState [sectorA; sectorB]) = (Ret tt, st2) /\
    SectorRoots (so st1) <> SectorRoots (so st2) /\
    totals (acc st1) = totals (acc st2) /\
    len (SectorRoots (so st1)) = len (SectorRoots (so st2)).
Proof.
  eexists. eexists.
  split; [vm_compute; reflexivity|]. split; [vm_compute; reflexivity|].
  split; [vm_compute; discriminate|].
  destruct (@mixed_batch_order_independent toyParams (toyHost 10)
              [insertC 0; deleteAt 1] [deleteAt 1; insertC 0]
              (toyState [sectorA; sectorB]) _ _ (perm_swap _ _ _) eq_refl eq_refl)
    as (Htot & Hlen & _).
  split; [exact Htot|exact Hlen].
Defined.

Lemma goodRound_run :
  managedRevisionIteration goodRound (toyWorld [sectorA])
  = (Ret tt,
     @Build_World toyParams committedObligation
       [SentSettings; WroteAcceptance; goodCommit; WroteAcceptance;
        WroteSignature {| WholeTransaction := false; Signature := [x02] |}]).
Proof. vm_compute. reflexivity. Defined.

Lemma toyStore_full (root sector : list byte) :
  toyStore root = inr sector -> len sector = 4.
Proof.
  unfold toyStore. destruct (Nat.eqb_spec (length root) 4) as [Hl|]; [|discriminate].
  intros Heq. injection Heq as <-. unfold len. now rewrite Hl.
Defined.

(** The call of the mutator in [goodRound]. *)
Lemma mutator_gets_roots_of_payloads_witness :
  [sectorC] = map (@MerkleRoot toyParams) [sectorC].
Proof.
  apply (@mutator_gets_roots_of_payloads toyParams goodRound (toyWorld [sectorA])
           _ _ _ committedObligation [] [sectorC] [sectorC]
           goodRound_run eq_refl).
  right. right. left. reflexivity.
Defined.

Lemma mutator_gets_full_sectors_witness :
  Forall (fun d => len d = 4) [sectorC] /\
  exists mods,
    sentModifications goodRound = inr mods /\
    len (SectorRoots committedObligation) + countType ActionDelete mods
      = 1 + countType ActionInsert mods.
Proof.
  destruct (@mutator_gets_full_sectors toyParams goodRound (toyWorld [sectorA])
              _ _ _ committedObligation [] [sectorC] [sectorC]
              toyStore_full goodRound_run eq_refl
              (or_intror (or_intror (or_introl eq_refl))))
    as (Hfull & mods & Hm & _ & _ & Hlen).
  split; [exact Hfull|]. exists mods. split; [exact Hm|exact Hlen].
Defined.

(** The peer hangs up instead of accepting. *)
Lemma round_failing_early_is_harmless_witness :
  let out := managedRevisionIteration hungUpRound (toyWorld [sectorA]) in
  obligation out.2 = toyObligation [sectorA] /\
  out.1 = Err (errExternal "connection closed").
Proof.
  cbv zeta.
  assert (Hrun : managedRevisionIteration hungUpRound (toyWorld [sectorA])
                 = ((managedRevisionIteration hungUpRound (toyWorld [sectorA])).1,
                    (managedRevisionIteration hungUpRound (toyWorld [sectorA])).2))
    by (vm_compute; reflexivity).
  assert (Hearly : negotiationAcceptance hungUpRound <> None) by discriminate.
  destruct (@round_failing_early_is_harmless toyParams hungUpRound
              (toyWorld [sectorA]) _ _ Hrun (or_intror (or_introl Hearly)))
    as (Ho & e & He & [[Hs _]|[(_ & Ha & _)|(_ & Ha & _)]]).
  - discriminate Hs.
  - injection Ha as <-. split; [exact Ho|exact He].
  - discriminate Ha.
Defined.

Lemma round_success_means_committed_witness :
  exists mods st,
    sentModifications goodRound = inr mods /\
    processModifications (host goodRound) mods (closureStart (toyWorld [sectorA]))
      = (Ret tt, st) /\
    obligationMutator goodRound = None /\
    wroteHostSig goodRound = None /\
    committedObligation =
      add_revenues (so st) (storageRevenue (acc st))
        (bandwidthRevenue (acc st)) (collateralRisked (acc st)).
Proof.
  destruct (proj1 (@round_success_means_committed toyParams goodRound
                     (toyWorld [sectorA]) _) goodRound_run)
    as (mods & st & rev & sig & enc & _ & _ & Hm & Hb & _ & _ & _ & _ & _ & _
        & _ & Hmut & _ & Hw & Ho & _).
  exists mods, st. split; [exact Hm|]. split; [exact Hb|].
  split; [exact Hmut|]. split; [exact Hw|exact Ho].
Defined.

(** The rejection of [failingRound]. *)
Lemma rejection_is_last_and_returned_witness :
  let out := managedRevisionIteration failingRound (toyWorld [sectorA; sectorB]) in
  out.1 = Err errBadModificationIndex /\
  last (trace out.2) = Some (WroteRejection errBadModificationIndex).
Proof.
  cbv zeta.
  assert (Hrun : managedRevisionIteration failingRound (toyWorld [sectorA; sectorB])
                 = ((managedRevisionIteration failingRound
                       (toyWorld [sectorA; sectorB])).1,
                    (managedRevisionIteration failingRound
                       (toyWorld [sectorA; sectorB])).2))
    by (vm_compute; reflexivity).
  destruct (@rejection_is_last_and_returned toyParams _ _ _ _
              (trace (managedRevisionIteration failingRound
                        (toyWorld [sectorA; sectorB])).2)
              errBadModificationIndex Hrun eq_refl
              (or_intror (or_introl eq_refl)))
    as (Hres & Hlast & _).
  split; [exact Hres|exact Hlast].
Defined.

Lemma empty_batch_round_changes_nothing_witness :
  obligation (managedRevisionIteration emptyRound (toyWorld [sectorA])).2
  = toyObligation [sectorA].
Proof.
  assert (Hrun : managedRevisionIteration emptyRound (toyWorld [sectorA])
                 = ((managedRevisionIteration emptyRound (toyWorld [sectorA])).1,
                    (managedRevisionIteration emptyRound (toyWorld [sectorA])).2))
    by (vm_compute; reflexivity).
  exact (proj1 (@empty_batch_round_changes_nothing toyParams emptyRound
                  (toyWorld [sectorA]) _ _ eq_refl Hrun)).
Defined.

Lemma round_never_lowers_counters_witness :
  100 <= AnticipatedRevenue committedObligation /\
  200 <= ConfirmedRevenue committedObligation /\
  300 <= RiskedCollateral committedObligation.
Proof.
  exact (@round_never_lowers_counters toyParams goodRound (toyWorld [sectorA]) _ _
           ltac:(by_evaluation) ltac:(by_evaluation) ltac:(by_evaluation)
           ltac:(by_evaluation) goodRound_run).
Defined.

(** Sessions of [goodRound]s, with a failing round or a stop between
    them. *)
Lemma idle_close_is_no_error_witness :
  (managedRPCReviseContract (toySession [goodRound; goodRound])).1.1 = Ret tt.
Proof.
  assert (Hall : runRounds [goodRound; goodRound] lockedWorld
                 = Some (revisionLoop [goodRound; goodRound] lockedWorld).2)
    by (vm_compute; reflexivity).
  rewrite (@idle_close_is_no_error toyParams (toySession [goodRound; goodRound])
             (toyObligation [sectorA]) _ eq_refl eq_refl Hall).
  reflexivity.
Defined.

Lemma session_ends_at_first_error_witness :
  let out := managedRPCReviseContract
               (toySession [goodRound; failingRound; goodRound]) in
  out.1.1 = Err errBadModificationIndex /\
  last out.2 = Some Unlocked /\
  heldAfter out.2 = false.
Proof.
  cbv zeta.
  assert (Hpre : runRounds [goodRound] lockedWorld
                 = Some (revisionLoop [goodRound] lockedWorld).2)
    by (vm_compute; reflexivity).
  assert (Hr : managedRevisionIteration failingRound
                 (revisionLoop [goodRound] lockedWorld).2
               = (Err errBadModificationIndex,
                  (managedRevisionIteration failingRound
                     (revisionLoop [goodRound] lockedWorld).2).2))
    by (vm_compute; reflexivity).
  destruct (@session_ends_at_first_error toyParams
              (toySession [goodRound; failingRound; goodRound])
              (toyObligation [sectorA]) [goodRound] failingRound [goodRound]
              _ _ _ eq_refl eq_refl eq_refl Hpre Hr)
    as (Hrun & _ & Hok & _).
  destruct (Hok eq_refl) as (Hlast & Hfree).
  rewrite Hrun. split; [reflexivity|]. split; [exact Hlast|exact Hfree].
Defined.

Lemma stop_response_ends_session_witness :
  let out := managedRPCReviseContract (toySession [goodRound; stopRound; goodRound]) in
  out.1.1 = Ret tt /\ out.1.2 = Some committedObligation.
Proof.
  cbv zeta.
  assert (Hpre : runRounds [goodRound] lockedWorld
                 = Some (revisionLoop [goodRound] lockedWorld).2)
    by (vm_compute; reflexivity).
  rewrite (@stop_response_ends_session toyParams
             (toySession [goodRound; stopRound; goodRound])
             (toyObligation [sectorA]) [goodRound] stopRound [goodRound]
             _ eq_refl eq_refl eq_refl Hpre eq_refl eq_refl).
  split; reflexivity.
Defined.

Lemma rounds_act_only_under_lock_witness :
  In (@Locked toyParams) [ExchangedRecentRevision; Locked; SentSettings;
                          WroteAcceptance] /\
  heldAfter [@ExchangedRecentRevision toyParams; Locked; SentSettings;
             WroteAcceptance] = true /\
  exists rel,
    In rel [WroteAcceptance;
            WroteSignature {| WholeTransaction := false; Signature := [x02] |};
            @Unlocked toyParams] /\
    isRelease rel = true.
Proof.
  destruct (@rounds_act_only_under_lock toyParams (toySession [goodRound]))
    as (_ & _ & Hunder).
  destruct (Hunder [ExchangedRecentRevision; Locked; SentSettings; WroteAcceptance]
              goodCommit
              [WroteAcceptance;
               WroteSignature {| WholeTransaction := false; Signature := [x02] |};
               Unlocked]
              eq_refl eq_refl ltac:(discriminate))
    as (Hin & _ & Hheld & Hrel).
  split; [exact Hin|]. split; [exact Hheld|exact Hrel].
Defined.
